(** * Data integration pipeline: geographic assignment and schedule routing

    A shallow embedding of the computational core of
    [data_integration_and_web_scraping.py]: the merge of the two property
    feeds, the suburb lookup [in_suburb], the LGA dictionary and its fill
    loop, the nearest-station loop and the travel-time computation over the
    stop-times table, followed by the properties established about them. *)

From Stdlib Require Import ZArith QArith Qround Qabs String Ascii List Lia.
From stdpp Require Import gmap strings list fin_maps.

Close Scope Q_scope.
Local Open Scope string_scope.
Local Open Scope Z_scope.

(** ** Exceptions

    The notebook has no [try]: an exception raised in a cell ends the run.
    Only the exceptions the modelled cells can raise are represented. *)

Inductive exn : Type :=
  | IndexError   (* index out of bounds *)
  | ValueError   (* int(), strptime(), literal_eval() on a malformed string;
                    pd.concat() of nothing *)
  | SyntaxError  (* literal_eval() on text that is not an expression *)
  | KeyError.    (* groupby() on a column the frame does not have *)

Inductive result (A : Type) : Type :=
  | Ok (a : A)
  | Raise (e : exn).

Arguments Ok {A} a.
Arguments Raise {A} e.

Definition bind {A B : Type} (m : result A) (k : A -> result B) : result B :=
  match m with
  | Ok a => k a
  | Raise e => Raise e
  end.

Notation "'do' x <- m ; k" := (bind m (fun x => k))
  (at level 10, x name, m at level 100, k at level 200).

Definition of_option {A : Type} (e : exn) (o : option A) : result A :=
  match o with
  | Some a => Ok a
  | None => Raise e
  end.

Definition returns {A : Type} (m : result A) : Prop := exists a, m = Ok a.

(** ** Python strings

    Timestamps, identifiers and names are ASCII strings; [s[0:2]] and [s[2:]]
    are the two slices the notebook takes. *)

Module Py.

Definition slice_to (n : nat) (s : string) : string := substring 0 n s.

Fixpoint slice_from (n : nat) (s : string) : string :=
  match n, s with
  | O, _ => s
  | S _, EmptyString => EmptyString
  | S n', String _ s' => slice_from n' s'
  end.

Definition code (c : ascii) : Z := Z.of_nat (nat_of_ascii c).

(** The ASCII characters [int()] strips: TAB..CR and space. *)
Definition is_space (c : ascii) : bool :=
  ((9 <=? code c) && (code c <=? 13)) || (code c =? 32).

Definition digit (c : ascii) : option Z :=
  if (48 <=? code c) && (code c <=? 57) then Some (code c - 48) else None.

Fixpoint lstrip (s : string) : string :=
  match s with
  | String c s' => if is_space c then lstrip s' else s
  | EmptyString => EmptyString
  end.

Fixpoint rstrip (s : string) : string :=
  match s with
  | String c s' =>
      match rstrip s' with
      | EmptyString => if is_space c then EmptyString else String c EmptyString
      | t => String c t
      end
  | EmptyString => EmptyString
  end.

(** Decimal digits, single underscores allowed between two digits. *)
Fixpoint int_digits (acc : Z) (after_digit : bool) (s : string) : option Z :=
  match s with
  | EmptyString => if after_digit then Some acc else None
  | String c s' =>
      if Ascii.eqb c "_"%char then
        if after_digit then int_digits acc false s' else None
      else
        match digit c with
        | Some d => int_digits (10 * acc + d) true s'
        | None => None
        end
  end.

(** [int(s)] for a string argument, base 10. *)
Definition int (s : string) : result Z :=
  of_option ValueError
    match rstrip (lstrip s) with
    | String "+" r => int_digits 0 false r
    | String "-" r => option_map Z.opp (int_digits 0 false r)
    | t => int_digits 0 false t
    end.

(** One [%H], [%M] or [%S] field of [strptime]: the two-digit alternative of
    the directive's regular expression when it applies and stays within
    [max], the one-digit alternative otherwise. *)
Definition field (max : Z) (s : string) : option (Z * string) :=
  match s with
  | String c1 s1 =>
      match digit c1 with
      | Some d1 =>
          match s1 with
          | String c2 s2 =>
              match digit c2 with
              | Some d2 =>
                  if 10 * d1 + d2 <=? max then Some (10 * d1 + d2, s2)
                  else Some (d1, s1)
              | None => Some (d1, s1)
              end
          | EmptyString => Some (d1, s1)
          end
      | None => None
      end
  | EmptyString => None
  end.

(** [datetime.datetime.strptime(s, '%H:%M:%S')]: the date is always
    1900-01-01, so the value is kept as seconds since midnight.  A seconds
    field of 60 or 61 matches the directive but is refused by the [datetime]
    constructor; either way the call raises [ValueError]. *)
Definition strptime_HMS (s : string) : result Z :=
  of_option ValueError
    match field 23 s with
    | Some (h, String ":" r1) =>
        match field 59 r1 with
        | Some (m, String ":" r2) =>
            match field 59 r2 with
            | Some (sec, EmptyString) => Some (h * 3600 + m * 60 + sec)
            | _ => None
            end
        | _ => None
        end
    | _ => None
    end.

(** [(a - b).seconds] for two datetimes of the same date: a [timedelta] is
    normalised to [days] and [0 <= seconds < 86400]. *)
Definition timedelta_seconds (a b : Z) : Z := (a - b) mod 86400.

(** [str.lower()] on ASCII letters. *)
Definition lower_char (c : ascii) : ascii :=
  if (65 <=? code c) && (code c <=? 90)
  then ascii_of_nat (nat_of_ascii c + 32) else c.

Fixpoint lower (s : string) : string :=
  match s with
  | String c s' => String (lower_char c) (lower s')
  | EmptyString => EmptyString
  end.

(** Truth value of a string: non-empty. *)
Definition truthy (s : string) : bool :=
  match s with
  | EmptyString => false
  | String _ _ => true
  end.

End Py.

(** ** Schedule Router: tables *)

(** Melbourne Central, the fixed destination; ids are compared through
    [str(...)], so a stop id is kept as the string [str] gives. *)
Definition MC : string := "19842".

(** A row of [calendar.txt]: [iloc[i, 1]] .. [iloc[i, 5]] are the Monday to
    Friday flags. *)
Record calendar_row : Type := {
  cal_service_id : string;
  monday : Z; tuesday : Z; wednesday : Z; thursday : Z; friday : Z
}.

Record trip_row : Type := {
  trips_service_id : string;
  trips_trip_id : string
}.

(** A row of [stop_times.txt], columns 0..4 of [st_np]. *)
Record stop_time : Type := {
  trip_id : string;
  arrival_time : string;
  departure_time : string;
  stop_id : string;
  stop_sequence : Z
}.

Definition weekday (c : calendar_row) : Z :=
  monday c + tuesday c + wednesday c + thursday c + friday c.

(** In[18] *)
Definition service_list (calendar : list calendar_row) : list string :=
  map cal_service_id (filter (fun c => weekday c =? 5) calendar).

(** In[19] *)
Definition trip_set (calendar : list calendar_row) (trips : list trip_row)
  : gset string :=
  list_to_set
    (map trips_trip_id
       (filter (fun t => bool_decide (trips_service_id t ∈ service_list calendar))
          trips)).

(** In[20] *)
Definition mc_trips (calendar : list calendar_row) (trips : list trip_row)
    (stop_times : list stop_time) : gset string :=
  list_to_set
    (map trip_id
       (filter (fun r => bool_decide (trip_id r ∈ trip_set calendar trips)
                         && String.eqb (stop_id r) MC)
          stop_times)).

(** ** Schedule Router: hour-24 rewrite (In[22]) *)

Definition with_arrival (r : stop_time) (t : string) : stop_time :=
  {| trip_id := trip_id r; arrival_time := t;
     departure_time := departure_time r; stop_id := stop_id r;
     stop_sequence := stop_sequence r |}.

Definition fix_arrival (r : stop_time) : result stop_time :=
  do h <- Py.int (Py.slice_to 2 (arrival_time r));
  if h =? 24
  then Ok (with_arrival r ("00" ++ Py.slice_from 2 (arrival_time r))%string)
  else Ok r.

Fixpoint fix_arrivals (stop_times : list stop_time) : result (list stop_time) :=
  match stop_times with
  | [] => Ok []
  | r :: rest =>
      do r' <- fix_arrival r;
      do rest' <- fix_arrivals rest;
      Ok (r' :: rest')
  end.

(** ** Schedule Router: traversal (In[25]) *)

(** [time_total] is a float in the notebook; it is kept as the exact
    rational it approximates.  The float sum of values that are not whole
    minutes can differ from the exact sum in its last digits. *)
Record tally : Type := {
  time_total : Q;
  number_trips : nat
}.

Definition tally0 : tally := {| time_total := 0%Q; number_trips := 0 |}.

(** [delta_t.seconds/60] for destination arrival [arr] and origin departure
    [dep]. *)
Definition elapsed_minutes (arr dep : string) : result Q :=
  do a <- Py.strptime_HMS arr;
  do d <- Py.strptime_HMS dep;
  Ok (Py.timedelta_seconds a d # 60)%Q.

Definition record_trip (acc : tally) (minutes : Q) : tally :=
  {| time_total := (time_total acc + minutes)%Q;
     number_trips := S (number_trips acc) |}.

(** [for k in range(1, 32)] from the row at index [i]: [ks] is what is left
    of the range. *)
Fixpoint follow (st_np : list stop_time) (i : nat) (seq_begin : Z)
    (dep : string) (ks : list nat) (acc : tally) : result tally :=
  match ks with
  | [] => Ok acc
  | k :: ks' =>
      do r <- of_option IndexError (st_np !! (i + k)%nat);
      if stop_sequence r <? seq_begin then Ok acc
      else if String.eqb (stop_id r) MC then
        do minutes <- elapsed_minutes (arrival_time r) dep;
        follow st_np i seq_begin dep ks' (record_trip acc minutes)
      else follow st_np i seq_begin dep ks' acc
  end.

Definition scan_range : list nat := seq 1 31.

(** The test that makes row [i] an origin event for [station]. *)
Definition in_window (hour : Z) : bool := (6 <? hour) && (hour <? 9).

(** Body of [for i in range(len(st_np))]. *)
Definition visit (mc : gset string) (st_np : list stop_time) (station : string)
    (i : nat) (acc : tally) : result tally :=
  do r <- of_option IndexError (st_np !! i);
  if String.eqb (stop_id r) station then
    do hour <- Py.int (Py.slice_to 2 (departure_time r));
    if bool_decide (trip_id r ∈ mc) && in_window hour
    then follow st_np i (stop_sequence r) (departure_time r) scan_range acc
    else Ok acc
  else Ok acc.

Fixpoint for_each {A S : Type} (body : A -> S -> result S) (l : list A) (s : S)
  : result S :=
  match l with
  | [] => Ok s
  | a :: l' => do s' <- body a s; for_each body l' s'
  end.

Definition scan_station (mc : gset string) (st_np : list stop_time)
    (station : string) : result tally :=
  for_each (visit mc st_np station) (seq 0 (length st_np)) tally0.

(** Python's [round] on the average: nearest integer, halves to even. *)
Definition py_round (q : Q) : Z :=
  let f := Qfloor q in
  match Qcompare (q - inject_Z f)%Q (1 # 2)%Q with
  | Lt => f
  | Gt => f + 1
  | Eq => if Z.even f then f else f + 1
  end.

(** A cell of column [travel_min_to_MC] or a value of [trip_dict]. *)
Inductive travel_min : Type :=
  | MinusOne                (* the default "-1" *)
  | NotAvailable            (* "not available" *)
  | Minutes (m : Z).

(** [round(time_total/number_trips)] on the exact total: where the exact
    average lies on a half, the notebook's float average can lie beside it
    and round to the other neighbour. *)
Definition average (t : tally) : travel_min :=
  match number_trips t with
  | O => NotAvailable
  | S _ => Minutes (py_round (time_total t / inject_Z (Z.of_nat (number_trips t)))%Q)
  end.

Definition station_travel (mc : gset string) (st_np : list stop_time)
    (station : string) : result travel_min :=
  do t <- scan_station mc st_np station;
  Ok (average t).

(** ** Schedule Router: the memoised table (In[25], In[26], In[28]) *)

(** [trip_dict] together with [traversed], the station ids for which the
    guarded block (the scan of [st_np]) was entered, in order.  [traversed]
    is not a variable of the notebook: it records how often the block runs. *)
Record router_state : Type := {
  trip_dict : gmap string travel_min;
  traversed : list string
}.

Definition initial_state : router_state :=
  {| trip_dict := {[ MC := Minutes 0 ]}; traversed := [] |}.

(** [for j in range(len(cd_np))], over the column [closest_train_station_id]
    as strings.  An exception ends the run; the state reached is returned with
    it. *)
Fixpoint build_trip_dict (mc : gset string) (st_np : list stop_time)
    (closest : list string) (s : router_state) : router_state * option exn :=
  match closest with
  | [] => (s, None)
  | station :: rest =>
      if bool_decide (station ∈ dom (trip_dict s)) then
        build_trip_dict mc st_np rest s
      else
        match station_travel mc st_np station with
        | Ok v =>
            build_trip_dict mc st_np rest
              {| trip_dict := <[station := v]> (trip_dict s);
                 traversed := traversed s ++ [station] |}
        | Raise e =>
            ({| trip_dict := trip_dict s;
                traversed := traversed s ++ [station] |}, Some e)
        end
  end.

(** In[26]: the loop over [trip_dict.items()] assigns the value of the one
    key equal to [station], if there is one. *)
Definition fill_travel_min (d : gmap string travel_min) (station : string)
    (cell : travel_min) : travel_min :=
  match d !! station with
  | Some v => v
  | None => cell
  end.

(** In[28], on [str(value)]. *)
Definition direct_journey_flag (value : travel_min) : Z :=
  match value with
  | NotAvailable => 0
  | MinusOne => -1
  | Minutes m => if m =? -1 then -1 else 1
  end.

(** In[18]..In[26] in sequence. *)
Definition schedule_router (calendar : list calendar_row) (trips : list trip_row)
    (stop_times : list stop_time) (closest : list string)
  : router_state * option exn :=
  match fix_arrivals stop_times with
  | Ok st_np =>
      build_trip_dict (mc_trips calendar trips stop_times) st_np closest
        initial_state
  | Raise e => (initial_state, Some e)
  end.

(** ** Insertion-ordered dictionaries

    [suburb_polygons] and [LGA_dict] are iterated with [.items()], so the
    order of insertion matters: they are association lists with unique keys,
    and [d[k] = v] replaces in place or appends. *)

Module Dict.

Fixpoint set {V : Type} (k : string) (v : V) (d : list (string * V))
  : list (string * V) :=
  match d with
  | [] => [(k, v)]
  | (k', v') :: d' =>
      if String.eqb k' k then (k, v) :: d' else (k', v') :: set k v d'
  end.

Definition keys {V : Type} (d : list (string * V)) : list string := map fst d.

End Dict.

(** ** Merging the property feeds (In[3], In[5]) *)

Section Merge.

(** A cell of the combined frame: text from the XML feed, a number or text
    from the JSON feed.  Only equality of cells matters here. *)
Context {cell : Type} `{EqDecision cell}.

Record property : Type := {
  property_id : cell;
  lat : cell;
  lng : cell;
  addr_street : cell
}.

#[global] Instance property_eq_dec : EqDecision property.
Proof. solve_decision. Defined.

(** [DataFrame.drop_duplicates(keep='first')] with no [subset]: a row is
    dropped when an equal row (all columns) came before it. *)
Fixpoint drop_duplicates_from (seen rows : list property) : list property :=
  match rows with
  | [] => []
  | r :: rest =>
      if decide (r ∈ seen) then drop_duplicates_from seen rest
      else r :: drop_duplicates_from (r :: seen) rest
  end.

Definition drop_duplicates (rows : list property) : list property :=
  drop_duplicates_from [] rows.

(** [len(g)] for the group of [id] in [groupby("property_id")]. *)
Definition occurrences (id : cell) (rows : list property) : nat :=
  length (filter (fun r => property_id r = id) rows).

(** In[4]: [pd.concat(g for _, g in combined_data.groupby("property_id") if
    len(g) > 1)].  The frame it builds is displayed and not kept; what stays
    is whether the cell ends: [pd.concat] of no group at all raises
    [ValueError].  Two feeds without any row give a frame without columns,
    on which [groupby] raises [KeyError]. *)
Definition show_duplicates (combined_data : list property) : result unit :=
  match combined_data with
  | [] => Raise KeyError
  | _ :: _ =>
      match filter (fun r => 1 < occurrences (property_id r) combined_data)%nat
                   combined_data with
      | [] => Raise ValueError
      | _ :: _ => Ok tt
      end
  end.

(** In[3] to In[5]: [pd.concat([content, data])], the display of the
    repeated identifiers, then [drop_duplicates]. *)
Definition clean_data (content data : list property) : result (list property) :=
  let combined_data := (content ++ data)%list in
  do shown <- show_duplicates combined_data;
  Ok (drop_duplicates combined_data).

End Merge.

Arguments property cell : clear implicits.

(** ** Geocoder (In[10], In[11])

    [Polygon], [Point] and [poly.contains(p)] are shapely's; the model takes
    them as given. *)

Definition not_available : string := "not available".

Section Geocoder.

Variables (polygon point coord : Type).
Variable Point : coord -> coord -> point.
Variable contains : polygon -> point -> bool.

(** In[10], from the (name, polygon) pairs of the shapefile in order. *)
Definition build_suburb_polygons (records : list (string * polygon))
  : list (string * polygon) :=
  fold_left (fun d rec => Dict.set (fst rec) (snd rec) d) records [].

Fixpoint first_containing (items : list (string * polygon)) (p : point)
  : string :=
  match items with
  | [] => not_available
  | (suburb, poly) :: rest =>
      if contains poly p then suburb else first_containing rest p
  end.

Definition in_suburb (suburb_polygons : list (string * polygon))
    (lat lon : coord) : string :=
  first_containing suburb_polygons (Point lon lat).

End Geocoder.

(** ** LGA dictionary (In[13]) and fill loop (In[14]) *)

(** A page of the PDF after the two [re.findall] calls: the captured LGA
    names and the captured bracket contents. *)
Record page : Type := {
  LGA : list string;
  suburbs : list string
}.

Record lga_state : Type := {
  LGA_dict : list (string * list string);
  printed : list string
}.

Definition read_error : string := "ERROR: PDF READ IN INCORRECTLY".

Definition newline : ascii := ascii_of_nat 10.

(** [suburb.replace("\n", "")] (the argument is one line feed) *)
Fixpoint remove_newlines (s : string) : string :=
  match s with
  | String c s' =>
      if Ascii.eqb c newline then remove_newlines s'
      else String c (remove_newlines s')
  | EmptyString => EmptyString
  end.

Section LGA.

(** [ast.literal_eval], with the value read as the list of strings that
    iterating over it yields. *)
Variable literal_eval : string -> result (list string).

(** Body of [for i in range(len(LGA))]. *)
Definition assign (p : page) (fixed_sub : list string) (i : nat)
    (d : list (string * list string)) : result (list (string * list string)) :=
  do key <- of_option IndexError (LGA p !! i);
  do text <- of_option IndexError (fixed_sub !! i);
  do value <- literal_eval text;
  Ok (Dict.set key value d).

Definition read_page (p : page) (s : lga_state) : result lga_state :=
  let fixed_sub := map remove_newlines (suburbs p) in
  if (length (LGA p) =? length (suburbs p))%nat then
    do d <- for_each (assign p fixed_sub) (seq 0 (length (LGA p))) (LGA_dict s);
    Ok {| LGA_dict := d; printed := printed s |}
  else
    Ok {| LGA_dict := LGA_dict s; printed := printed s ++ [read_error] |}.

Definition read_pdf (pages : list page) : result lga_state :=
  for_each read_page pages {| LGA_dict := []; printed := [] |}.

End LGA.

(** The test of In[14]. *)
Definition suburb_matches (suburb v : string) : bool :=
  Py.truthy suburb && Py.truthy v && String.eqb (Py.lower suburb) (Py.lower v).

(** [for v in value] *)
Fixpoint fill_from_value (suburb key : string) (value : list string)
    (lga : string) : string :=
  match value with
  | [] => lga
  | v :: rest =>
      fill_from_value suburb key rest
        (if suburb_matches suburb v then key else lga)
  end.

(** [for key, value in LGA_dict.items()] *)
Fixpoint fill_from_items (suburb : string) (items : list (string * list string))
    (lga : string) : string :=
  match items with
  | [] => lga
  | (key, value) :: rest =>
      fill_from_items suburb rest (fill_from_value suburb key value lga)
  end.

(** The [Lga] cell of a property after In[14]; it starts as the default. *)
Definition fill_lga (d : list (string * list string)) (suburb : string)
  : string :=
  fill_from_items suburb d not_available.

(** In[15] *)
Definition fix_lga (lga : string) : string :=
  if String.eqb lga "TRATHBOGIE" then "STRATHBOGIE" else lga.

(** ** Nearest station (In[17])

    Coordinates and distances are floats in the notebook; they are taken as
    the rationals they denote, with exact arithmetic.  [radians] and
    [haversine_distances] are library functions and are taken as given:
    [haversine_distances a b] stands for the entries [result[0,1]] and
    [result[1,0]] of the matrix computed for the two points. *)

Record stop : Type := {
  stops_stop_id : string;
  stop_lat : Q;
  stop_lon : Q
}.

Record nearest : Type := {
  min_dist : Q;
  dist_changed : bool;
  closest_id : string
}.

Section NearestStation.

Variable radians : Q -> Q.
Variable haversine_distances : Q * Q -> Q * Q -> Q * Q.

Definition result_dist (lat lon : Q) (st : stop) : Q :=
  let loc_rad := (radians lat, radians lon) in
  let train_rad := (radians (stop_lat st), radians (stop_lon st)) in
  let result := haversine_distances loc_rad train_rad in
  ((fst result + snd result) / 2)%Q.

(** Body of [for j in range(len(stops))]. *)
Definition consider (lat lon : Q) (s : nearest) (st : stop) : nearest :=
  if Qlt_le_dec (result_dist lat lon st) (min_dist s) then
    {| min_dist := result_dist lat lon st;
       dist_changed := true;
       closest_id := stops_stop_id st |}
  else s.

(** [closest_id] is whatever the previous property left in it. *)
Definition scan_stops (closest_before : string) (lat lon : Q)
    (stops : list stop) : nearest :=
  fold_left (consider lat lon) stops
    {| min_dist := 1; dist_changed := false; closest_id := closest_before |}.

(** The two cells written for the property, [None] when they keep their
    defaults. *)
Definition nearest_station (closest_before : string) (lat lon : Q)
    (stops : list stop) : option (string * Q) :=
  let s := scan_stops closest_before lat lon stops in
  if dist_changed s then Some (closest_id s, (min_dist s * 6378)%Q) else None.

End NearestStation.

(** ** Auxiliary definitions used by the statements below *)

(** The rewrite of In[22] carried over to the departure column, as the
    specification words it ("every source timestamp").  The notebook has no
    such step; the definition exists to compare the router with and without
    it. *)
Definition with_departure (r : stop_time) (t : string) : stop_time :=
  {| trip_id := trip_id r; arrival_time := arrival_time r;
     departure_time := t; stop_id := stop_id r;
     stop_sequence := stop_sequence r |}.

Definition spec_fix_departure (r : stop_time) : stop_time :=
  match Py.int (Py.slice_to 2 (departure_time r)) with
  | Ok h =>
      if h =? 24
      then with_departure r ("00" ++ Py.slice_from 2 (departure_time r))%string
      else r
  | Raise _ => r
  end.

(** Concrete tables for the examples. *)
Definition st_row (t a d s : string) (q : Z) : stop_time :=
  {| trip_id := t; arrival_time := a; departure_time := d; stop_id := s;
     stop_sequence := q |}.

Definition weekday_calendar : list calendar_row :=
  [ {| cal_service_id := "T0"; monday := 1; tuesday := 1; wednesday := 1;
       thursday := 1; friday := 1 |} ].

(** One trip of three stops, sequence numbers 1, 2, 3, leaving station "A"
    at 07:15:00 and reaching the destination at 07:42:00; it is the whole
    table. *)
Definition three_stop_trip : list stop_time :=
  [ st_row "T1" "07:15:00" "07:15:00" "A" 1;
    st_row "T1" "07:30:00" "07:30:00" "B" 2;
    st_row "T1" "07:42:00" "07:42:00" MC 3 ].

(** The same trip followed in the table by the first row of another trip. *)
Definition three_stop_trip_then_next : list stop_time :=
  [ st_row "T0" "07:01:00" "07:01:00" "Z" 1;
    st_row "T1" "07:15:00" "07:15:00" "A" 2;
    st_row "T1" "07:30:00" "07:30:00" "B" 3;
    st_row "T1" "07:42:00" "07:42:00" MC 4;
    st_row "T2" "09:30:00" "09:30:00" "Z" 1 ].

(** Two trips from "A" (their first stop) to the destination, then a row
    with sequence number 0. *)
Definition two_short_trips : list stop_time :=
  [ st_row "T1" "07:15:00" "07:15:00" "A" 1;
    st_row "T1" "07:42:00" "07:42:00" MC 2;
    st_row "T2" "07:30:00" "07:30:00" "A" 1;
    st_row "T2" "07:57:00" "07:57:00" MC 2;
    st_row "T3" "10:00:00" "10:00:00" "Z" 0 ].

(** One row whose arrival and departure both read hour 24, before and after
    In[22]. *)
Definition hour24_table : list stop_time :=
  [ st_row "T1" "24:05:00" "24:05:00" "A" 5 ].

Definition hour24_table_fixed : list stop_time :=
  [ st_row "T1" "00:05:00" "24:05:00" "A" 5 ].

Definition two_short_trips_trips : list trip_row :=
  [ {| trips_service_id := "T0"; trips_trip_id := "T1" |};
    {| trips_service_id := "T0"; trips_trip_id := "T2" |};
    {| trips_service_id := "T0"; trips_trip_id := "T3" |} ].

(** A row the forward scan passes over: not below the origin in sequence
    and not the destination. *)
Definition passed_over (seq_begin : Z) (r : stop_time) : Prop :=
  (stop_sequence r <? seq_begin) = false /\ String.eqb (stop_id r) MC = false.

(** A running total made of per-trip values below 1440 minutes each. *)
Definition tally_bounded (t : tally) : Prop :=
  (0 <= time_total t)%Q /\
  (time_total t <= inject_Z (Z.of_nat (number_trips t)) * (86399 # 60))%Q.

(** What the three variables of the nearest-station loop hold after the
    stations of [l], [d] being the distance of a station to the property. *)
Definition nearest_inv (d : stop -> Q) (l : list stop) (s : nearest) : Prop :=
  (dist_changed s = false /\ min_dist s = 1%Q /\
   forall st, st ∈ l -> (1 <= d st)%Q) \/
  (dist_changed s = true /\
   exists j st,
     l !! j = Some st /\ min_dist s = d st /\
     closest_id s = stops_stop_id st /\ (d st < 1)%Q /\
     (forall k st', l !! k = Some st' -> (d st <= d st')%Q) /\
     (forall k st', (k < j)%nat -> l !! k = Some st' -> (d st < d st')%Q)).

(** The assignments of one page of In[13] over the captured names and the
    cleaned bracket contents taken pairwise. *)
Fixpoint assign_all (literal_eval : string -> result (list string))
    (keys texts : list string) (d : list (string * list string))
  : result (list (string * list string)) :=
  match keys, texts with
  | key :: keys', text :: texts' =>
      do value <- literal_eval text;
      assign_all literal_eval keys' texts' (Dict.set key value d)
  | _, _ => Ok d
  end.

(** A page where the same region is captured twice, and one with two
    regions. *)
Definition yarra_twice : page :=
  {| LGA := ["YARRA"; "YARRA"];
     suburbs := ["'Abbotsford', 'Richmond'"; "'Carlton', 'Fitzroy'"] |}.

Definition two_regions : page :=
  {| LGA := ["YARRA"; "MELBOURNE"];
     suburbs := ["'Abbotsford', 'Richmond'"; "'Carlton', 'Docklands'"] |}.

Definition one_header_two_groups : page :=
  {| LGA := ["YARRA"];
     suburbs := ["'Abbotsford', 'Richmond'"; "'Carlton', 'Docklands'"] |}.

Definition no_lga : lga_state := {| LGA_dict := []; printed := [] |}.

(** ["HH:MM:SS"] for given hour, minute and second. *)
Definition digit_char (d : Z) : ascii := ascii_of_nat (Z.to_nat (48 + d)).

Definition two_digits (v : Z) (rest : string) : string :=
  String (digit_char (v / 10)) (String (digit_char (v mod 10)) rest).

Definition hms (h m s : Z) : string :=
  two_digits h (String ":" (two_digits m (String ":" (two_digits s "")))).

(** Two records of the XML feed with one identifier and two spellings of the
    street. *)
Definition same_id_two_addresses : list (property string) :=
  [ {| property_id := "1001"; lat := "-37.80"; lng := "144.96";
       addr_street := "12 Lygon St" |};
    {| property_id := "1001"; lat := "-37.80"; lng := "144.96";
       addr_street := "12 Lygon Street" |} ].

(** Stand-ins for [radians] and [haversine_distances] in the examples, whose
    points all lie on the equator: there the angular distance of two points
    at most 180 degrees apart is the difference of their longitudes in
    radians.  [pi_approx] is pi to sixteen digits. *)
Definition pi_approx : Q := 3141592653589793 # 1000000000000000.

Definition radians_approx (x : Q) : Q := (x * pi_approx / 180)%Q.

Definition haversine_on_equator (a b : Q * Q) : Q * Q :=
  (Qabs (snd a - snd b), Qabs (snd b - snd a)).

(** One station, antipodal to a property at latitude 0 and longitude 0. *)
Definition antipodal_stop : list stop :=
  [ {| stops_stop_id := "19842"; stop_lat := 0; stop_lon := 180 |} ].

(** Three stations at 10, 5 and 5 degrees of longitude from that property. *)
Definition equator_stops : list stop :=
  [ {| stops_stop_id := "19841"; stop_lat := 0; stop_lon := 10 |};
    {| stops_stop_id := "19842"; stop_lat := 0; stop_lon := 5 |};
    {| stops_stop_id := "19843"; stop_lat := 0; stop_lon := -5 |} ].

(** Polygons for the examples: boxes with sides parallel to the axes, given
    by two opposite corners; a point is contained when it lies strictly
    between the sides, as shapely's [contains] leaves the boundary out. *)
Definition box : Type := (Z * Z) * (Z * Z).

Definition box_contains (b : box) (p : Z * Z) : bool :=
  (fst (fst b) <? fst p) && (fst p <? fst (snd b)) &&
  (snd (fst b) <? snd p) && (snd p <? snd (snd b)).

Definition box_point (lon lat : Z) : Z * Z := (lon, lat).

Definition two_boxes : list (string * box) :=
  [ ("CARLTON", ((0, 0), (10, 10))); ("FITZROY", ((10, 0), (20, 10))) ].

(** The pairs [(key, v)] in the order the loops of In[14] meet them. *)
Definition lga_pairs (d : list (string * list string)) : list (string * string) :=
  flat_map (fun kv => map (fun v => (fst kv, v)) (snd kv)) d.

Definition matching_pairs (suburb : string) (d : list (string * list string))
  : list (string * string) :=
  List.filter (fun kv => suburb_matches suburb (snd kv)) (lga_pairs d).

(** Two regions that both list Carlton. *)
Definition carlton_twice : list (string * list string) :=
  [ ("MELBOURNE", ["Carlton"; "Docklands"]); ("YARRA", ["Carlton"; "Fitzroy"]) ].

(** An evaluator for the bracket contents of the region document:
    single-quoted names without escapes, separated by commas; names that
    follow one another without a comma are one name, as adjacent string
    literals are.  One name without a comma is a string, and iterating over
    it yields its characters.  The empty text and an unterminated name are
    [SyntaxError], as in the library; for any other text the stand-in also
    answers [SyntaxError], where the library may answer otherwise, so it is
    applied to texts of the form above only.  It instantiates [literal_eval]
    in the concrete examples; the theorems are stated for an arbitrary
    [literal_eval]. *)
Inductive quote_mode : Type :=
  | BeforeName
  | InName (acc : string)
  | AfterName (acc : string).

Fixpoint quoted_names (m : quote_mode) (comma : bool) (names : list string)
    (s : string) : result (list string * bool) :=
  match s with
  | EmptyString =>
      match m with
      | InName _ => Raise SyntaxError
      | BeforeName => if comma then Ok (names, comma) else Raise SyntaxError
      | AfterName acc => Ok ((names ++ [acc])%list, comma)
      end
  | String c s' =>
      match m with
      | BeforeName =>
          if Ascii.eqb c " "%char then quoted_names BeforeName comma names s'
          else if Ascii.eqb c "'"%char then quoted_names (InName "") comma names s'
          else Raise SyntaxError
      | InName acc =>
          if Ascii.eqb c "'"%char
          then quoted_names (AfterName acc) comma names s'
          else if Ascii.eqb c "\"%char then Raise SyntaxError
          else quoted_names (InName (acc ++ String c "")%string) comma names s'
      | AfterName acc =>
          if Ascii.eqb c " "%char then quoted_names (AfterName acc) comma names s'
          else if Ascii.eqb c "'"%char then quoted_names (InName acc) comma names s'
          else if Ascii.eqb c ","%char
          then quoted_names BeforeName true (names ++ [acc])%list s'
          else Raise SyntaxError
      end
  end.

Fixpoint characters (s : string) : list string :=
  match s with
  | EmptyString => []
  | String c s' => String c "" :: characters s'
  end.

Definition eval_quoted_names (text : string) : result (list string) :=
  do r <- quoted_names BeforeName false [] text;
  match r with
  | ([name], false) => Ok (characters name)
  | (names, _) => Ok names
  end.

(** ** Further cells of the notebook *)

(** In[32], In[33]: [LGA.lower().replace(" ", "-")], the key under which the
    figures of an LGA are fetched and stored, and the guard on it. *)
Fixpoint replace_space (s : string) : string :=
  match s with
  | String c s' =>
      String (if Ascii.eqb c " "%char then "-"%char else c) (replace_space s')
  | EmptyString => EmptyString
  end.

Definition lga_key (name : string) : string := replace_space (Py.lower name).

Definition is_fetched (name : string) : bool :=
  negb (String.eqb (lga_key name) "not available").

(** A calendar row whose five weekday flags are 0 or 1. *)
Definition flag (z : Z) : Prop := z = 0 \/ z = 1.

Definition boolean_flags (c : calendar_row) : Prop :=
  flag (monday c) /\ flag (tuesday c) /\ flag (wednesday c) /\
  flag (thursday c) /\ flag (friday c).

(** A trip of 33 stops from "A" whose last stop is the destination. *)
Definition long_trip : list stop_time :=
  (st_row "T1" "07:00:00" "07:00:00" "A" 1
   :: map (fun k => st_row "T1" "07:30:00" "07:30:00" "S" (Z.of_nat k)) (seq 2 31))
  ++ [ st_row "T1" "08:00:00" "08:00:00" MC 33 ].

(** A time of day in the form ["HH:MM:SS"], and a row both of whose times
    are such. *)
Definition time_of_day (t : string) : Prop :=
  exists h m s, 0 <= h <= 23 /\ 0 <= m <= 59 /\ 0 <= s <= 59 /\ t = hms h m s.

Definition timed_row (r : stop_time) : Prop :=
  time_of_day (arrival_time r) /\ time_of_day (departure_time r).

(** The 31 rows after row [i] are all in the table, or one of them that is
    in the table has a sequence number below [seq_begin]. *)
Definition closed_from (st_np : list stop_time) (i : nat) (seq_begin : Z) : Prop :=
  (i + 31 < length st_np)%nat \/
  exists k r, (1 <= k <= 31)%nat /\ st_np !! (i + k)%nat = Some r /\
              stop_sequence r < seq_begin.

(** A page that fails the count check of In[13]. *)
Definition mismatched (p : page) : bool :=
  negb (length (LGA p) =? length (suburbs p))%nat.

(** * Properties *)

(** ** Timestamps and elapsed time *)

Example int_07 : Py.int (Py.slice_to 2 "07:15:00") = Ok 7.
Proof. reflexivity. Qed.

Example int_24 : Py.int (Py.slice_to 2 "24:05:00") = Ok 24.
Proof. reflexivity. Qed.

Example int_bad : Py.int (Py.slice_to 2 "7:15:00") = Raise ValueError.
Proof. reflexivity. Qed.

Example strptime_0715 : Py.strptime_HMS "07:15:00" = Ok 26100.
Proof. reflexivity. Qed.

Example strptime_24 : Py.strptime_HMS "24:05:00" = Raise ValueError.
Proof. reflexivity. Qed.

Example lower_ex : Py.lower "St Kilda" = "st kilda".
Proof. reflexivity. Qed.

Lemma bind_ok {A B : Type} (m : result A) (k : A -> result B) (b : B) :
  bind m k = Ok b -> exists a, m = Ok a /\ k a = Ok b.
Proof. destruct m as [a|e]; simpl; [eauto | discriminate]. Qed.

Lemma of_option_ok {A : Type} (e : exn) (o : option A) (a : A) :
  of_option e o = Ok a -> o = Some a.
Proof. destruct o; simpl; congruence. Qed.

Lemma digit_range (c : ascii) (d : Z) : Py.digit c = Some d -> 0 <= d <= 9.
Proof.
  unfold Py.digit.
  destruct ((48 <=? Py.code c) && (Py.code c <=? 57)) eqn:E; [|discriminate].
  intros [= <-]. apply andb_true_iff in E as [E1 E2]. lia.
Qed.

Lemma field_range (max : Z) (s r : string) (v : Z) :
  9 <= max -> Py.field max s = Some (v, r) -> 0 <= v <= max.
Proof.
  intros Hmax. unfold Py.field.
  destruct s as [|c1 s1]; [discriminate|].
  destruct (Py.digit c1) as [d1|] eqn:E1; [|discriminate].
  apply digit_range in E1.
  destruct s1 as [|c2 s2]; [intros [= <- <-]; lia|].
  destruct (Py.digit c2) as [d2|] eqn:E2; [|intros [= <- <-]; lia].
  apply digit_range in E2.
  destruct (10 * d1 + d2 <=? max) eqn:E; intros [= <- <-]; lia.
Qed.

Lemma strptime_range (s : string) (a : Z) :
  Py.strptime_HMS s = Ok a -> 0 <= a < 86400.
Proof.
  unfold Py.strptime_HMS. intros H. apply of_option_ok in H.
  destruct (Py.field 23 s) as [[h r0]|] eqn:Eh; [|discriminate].
  destruct r0 as [|c0 r1]; [discriminate|].
  destruct (Ascii.eqb_spec c0 ":"%char) as [->|Hne].
  2:{ destruct c0 as [[] [] [] [] [] [] [] []]; try discriminate. congruence. }
  destruct (Py.field 59 r1) as [[m r2]|] eqn:Em; [|discriminate].
  destruct r2 as [|c2 r3]; [discriminate|].
  assert (Hc : c2 = ":"%char \/ c2 <> ":"%char)
    by (destruct (Ascii.eqb_spec c2 ":"%char); auto).
  destruct Hc as [->|Hne].
  2:{ destruct c2 as [[] [] [] [] [] [] [] []]; try discriminate. congruence. }
  destruct (Py.field 59 r3) as [[sec r4]|] eqn:Es; [|discriminate].
  destruct r4; [|discriminate].
  injection H as <-.
  apply field_range in Eh, Em, Es; lia.
Qed.

Lemma timedelta_seconds_range (a b : Z) : 0 <= Py.timedelta_seconds a b < 86400.
Proof. unfold Py.timedelta_seconds. apply Z.mod_pos_bound. lia. Qed.

Lemma minutes_range (z : Z) :
  0 <= z < 86400 -> (0 <= z # 60)%Q /\ (z # 60 < 1440)%Q.
Proof. intros Hz. unfold Qle, Qlt; simpl. lia. Qed.

Lemma digit_digit_char (d : Z) : 0 <= d <= 9 -> Py.digit (digit_char d) = Some d.
Proof.
  intros Hd.
  assert (Hcases : d = 0 \/ d = 1 \/ d = 2 \/ d = 3 \/ d = 4 \/ d = 5 \/
                   d = 6 \/ d = 7 \/ d = 8 \/ d = 9) by lia.
  repeat (destruct Hcases as [->|Hcases]; [reflexivity|]).
  subst d. reflexivity.
Qed.

Lemma field_two_digits (max v : Z) (rest : string) :
  0 <= v <= max -> max <= 99 ->
  Py.field max (two_digits v rest) = Some (v, rest).
Proof.
  intros Hv Hmax. unfold Py.field, two_digits.
  assert (H10 : v = 10 * (v / 10) + v mod 10) by (apply Z_div_mod_eq_full).
  assert (Hq : 0 <= v / 10 <= 9)
    by (split; [apply Z.div_pos; lia
               | apply Z.lt_succ_r, Z.div_lt_upper_bound; lia]).
  assert (Hr : 0 <= v mod 10 <= 9) by (pose proof (Z.mod_pos_bound v 10); lia).
  rewrite (digit_digit_char _ Hq), (digit_digit_char _ Hr).
  rewrite <- H10.
  destruct (Z.leb_spec v max); [reflexivity | lia].
Qed.

(** A timestamp in the interface's ["HH:MM:SS"] form always parses. *)
Lemma strptime_hms (h m s : Z) :
  0 <= h <= 23 -> 0 <= m <= 59 -> 0 <= s <= 59 ->
  Py.strptime_HMS (hms h m s) = Ok (h * 3600 + m * 60 + s).
Proof.
  intros Hh Hm Hs. unfold Py.strptime_HMS, hms.
  rewrite field_two_digits by lia.
  rewrite field_two_digits by lia.
  rewrite field_two_digits by lia.
  reflexivity.
Qed.

(** X12: the elapsed time of a trip is always produced for well-formed
    timestamps, whichever of the two is earlier in the day. *)
Lemma elapsed_minutes_total (h1 m1 s1 h2 m2 s2 : Z) :
  0 <= h1 <= 23 -> 0 <= m1 <= 59 -> 0 <= s1 <= 59 ->
  0 <= h2 <= 23 -> 0 <= m2 <= 59 -> 0 <= s2 <= 59 ->
  elapsed_minutes (hms h1 m1 s1) (hms h2 m2 s2) =
  Ok (((h1 * 3600 + m1 * 60 + s1) - (h2 * 3600 + m2 * 60 + s2)) mod 86400 # 60)%Q.
Proof.
  intros. unfold elapsed_minutes.
  rewrite !strptime_hms by assumption. reflexivity.
Qed.

(** C10: every elapsed time computed by [delta_t.seconds/60] lies in
    [0, 1440) minutes; it is the difference of the two times of day taken
    modulo 24 hours, so an arrival earlier in the day than the departure gives
    the positive duration 1440 minus the gap, not a negative one. *)
Theorem elapsed_minutes_in_day (arr dep : string) (m : Q) :
  elapsed_minutes arr dep = Ok m ->
  (0 <= m)%Q /\ (m < 1440)%Q /\
  exists a d : Z,
    Py.strptime_HMS arr = Ok a /\ Py.strptime_HMS dep = Ok d /\
    m = ((a - d) mod 86400 # 60)%Q /\
    (a < d -> m = (86400 - (d - a) # 60)%Q /\ (0 < m)%Q).
Proof.
  unfold elapsed_minutes. intros H.
  apply bind_ok in H as (a & Ha & H).
  apply bind_ok in H as (d & Hd & H).
  injection H as <-.
  pose proof (minutes_range _ (timedelta_seconds_range a d)) as [H0 H1].
  split; [exact H0|]. split; [exact H1|].
  exists a, d. repeat split; try assumption.
  - apply strptime_range in Ha, Hd.
    unfold Py.timedelta_seconds. f_equal.
    rewrite <- (Z.mod_add (a - d) 1 86400) by lia.
    rewrite Z.mod_small; lia.
  - apply strptime_range in Ha, Hd.
    unfold Py.timedelta_seconds, Qlt; simpl.
    rewrite <- (Z.mod_add (a - d) 1 86400) by lia.
    rewrite Z.mod_small; lia.
Qed.

Lemma elapsed_minutes_in_day_witness :
  (0 <= 54900 # 60)%Q /\ (54900 # 60 < 1440)%Q /\
  exists a d : Z,
    Py.strptime_HMS "00:05:00" = Ok a /\ Py.strptime_HMS "08:50:00" = Ok d /\
    (54900 # 60)%Q = ((a - d) mod 86400 # 60)%Q /\
    (a < d -> (54900 # 60)%Q = (86400 - (d - a) # 60)%Q /\ (0 < 54900 # 60)%Q).
Proof.
  apply (elapsed_minutes_in_day "00:05:00" "08:50:00" (54900 # 60)%Q).
  reflexivity.
Defined.

(** ** Schedule Router: the forward scan *)

Lemma follow_nil st_np i seq_begin dep acc :
  follow st_np i seq_begin dep [] acc = Ok acc.
Proof. reflexivity. Qed.

(** A row that is neither before the origin in sequence nor the destination
    is passed over. *)
Lemma follow_pass st_np i seq_begin dep k ks acc r :
  st_np !! (i + k)%nat = Some r ->
  (stop_sequence r <? seq_begin) = false ->
  String.eqb (stop_id r) MC = false ->
  follow st_np i seq_begin dep (k :: ks) acc =
  follow st_np i seq_begin dep ks acc.
Proof. intros Hr Hs Hm. simpl. rewrite Hr. simpl. rewrite Hs, Hm. reflexivity. Qed.

(** A sequence number below the origin's ends the scan ([break]). *)
Lemma follow_break st_np i seq_begin dep k ks acc r :
  st_np !! (i + k)%nat = Some r ->
  (stop_sequence r <? seq_begin) = true ->
  follow st_np i seq_begin dep (k :: ks) acc = Ok acc.
Proof. intros Hr Hs. simpl. rewrite Hr. simpl. rewrite Hs. reflexivity. Qed.

(** At the destination a trip is recorded, and the scan goes on. *)
Lemma follow_destination st_np i seq_begin dep k ks acc r :
  st_np !! (i + k)%nat = Some r ->
  (stop_sequence r <? seq_begin) = false ->
  String.eqb (stop_id r) MC = true ->
  follow st_np i seq_begin dep (k :: ks) acc =
  (do minutes <- elapsed_minutes (arrival_time r) dep;
   follow st_np i seq_begin dep ks (record_trip acc minutes)).
Proof. intros Hr Hs Hm. simpl. rewrite Hr. simpl. rewrite Hs, Hm. reflexivity. Qed.

(** An index past the end of the table raises. *)
Lemma follow_out_of_bounds st_np i seq_begin dep k ks acc :
  (length st_np <= i + k)%nat ->
  follow st_np i seq_begin dep (k :: ks) acc = Raise IndexError.
Proof.
  intros Hlen. simpl. rewrite (proj2 (lookup_ge_None st_np (i + k)%nat) Hlen).
  reflexivity.
Qed.

Lemma follow_skip st_np i seq_begin dep ks1 ks2 acc :
  Forall (fun k => exists r, st_np !! (i + k)%nat = Some r /\
                             passed_over seq_begin r) ks1 ->
  follow st_np i seq_begin dep (ks1 ++ ks2) acc =
  follow st_np i seq_begin dep ks2 acc.
Proof.
  induction 1 as [|k ks1 (r & Hr & Hs & Hm) _ IH]; [reflexivity|].
  rewrite <- app_comm_cons, (follow_pass _ _ _ _ _ _ _ r); auto.
Qed.

(** The sequence number drops below the origin's before the destination is
    met: nothing is recorded. *)
Lemma follow_abandoned st_np i seq_begin dep ks1 k ks2 acc r :
  Forall (fun k => exists r, st_np !! (i + k)%nat = Some r /\
                             passed_over seq_begin r) ks1 ->
  st_np !! (i + k)%nat = Some r ->
  (stop_sequence r <? seq_begin) = true ->
  follow st_np i seq_begin dep (ks1 ++ k :: ks2) acc = Ok acc.
Proof.
  intros Hks1 Hr Hs. rewrite follow_skip by assumption.
  eapply follow_break; eassumption.
Qed.

(** X10: the destination is met first and the sequence number drops before it is
    met again: exactly one trip is recorded, with the destination's arrival
    minus the origin's departure. *)
Lemma follow_one_trip st_np i seq_begin dep ks1 k ks2 k' ks3 acc r r' minutes :
  Forall (fun k => exists r, st_np !! (i + k)%nat = Some r /\
                             passed_over seq_begin r) ks1 ->
  st_np !! (i + k)%nat = Some r ->
  (stop_sequence r <? seq_begin) = false ->
  String.eqb (stop_id r) MC = true ->
  elapsed_minutes (arrival_time r) dep = Ok minutes ->
  Forall (fun k => exists r, st_np !! (i + k)%nat = Some r /\
                             passed_over seq_begin r) ks2 ->
  st_np !! (i + k')%nat = Some r' ->
  (stop_sequence r' <? seq_begin) = true ->
  follow st_np i seq_begin dep (ks1 ++ k :: ks2 ++ k' :: ks3) acc =
  Ok (record_trip acc minutes).
Proof.
  intros Hks1 Hr Hs Hm He Hks2 Hr' Hs'.
  rewrite follow_skip by assumption.
  rewrite (follow_destination _ _ _ _ _ _ _ r) by assumption.
  rewrite He. simpl.
  eapply follow_abandoned; eassumption.
Qed.

(** The trip of the specification's example, inside a table where another
    trip follows it: 27 minutes, one trip. *)
Example three_stop_trip_27_minutes :
  exists t,
    scan_station {[ "T1" ]} three_stop_trip_then_next "A" = Ok t /\
    number_trips t = 1%nat /\ (time_total t == 27)%Q.
Proof. eexists. split; [vm_compute; reflexivity|]. split; reflexivity. Qed.

(** C1: the origin event of row 0 of [two_short_trips] (station "A", trip
    "T1", departure 07:15:00) reaches the destination first, at the next row,
    27 minutes later; the scan does not stop there, and the same origin event
    records a second trip of 42 minutes at the destination row of trip "T2".
    One candidate therefore counts two trips, the station three trips for two
    candidates, and its average is 32 minutes where both trips take 27. *)
Theorem one_candidate_counts_two_trips :
  let mc := mc_trips weekday_calendar two_short_trips_trips two_short_trips in
  (exists t,
     visit mc two_short_trips "A" 0 tally0 = Ok t /\
     number_trips t = 2%nat /\ (time_total t == 27 + 42)%Q) /\
  (exists t,
     scan_station mc two_short_trips "A" = Ok t /\
     number_trips t = 3%nat /\ (time_total t == 27 + 42 + 27)%Q) /\
  station_travel mc two_short_trips "A" = Ok (Minutes 32).
Proof.
  split; [|split].
  - eexists. split; [vm_compute; reflexivity|]. split; reflexivity.
  - eexists. split; [vm_compute; reflexivity|]. split; reflexivity.
  - vm_compute. reflexivity.
Qed.

(** C9: on the three-row table [three_stop_trip] the origin event at row 0
    records the trip at row 2 and then reads row 3, which does not exist: the
    scan raises [IndexError] and the run ends without a travel-time table
    entry for the station. *)
Theorem forward_scan_reads_past_the_table :
  let trips := [ {| trips_service_id := "T0"; trips_trip_id := "T1" |} ] in
  let mc := mc_trips weekday_calendar trips three_stop_trip in
  length three_stop_trip = 3%nat /\
  follow three_stop_trip 0 1 "07:15:00" [1; 2]%nat tally0 =
    Ok (record_trip tally0 (1620 # 60)%Q) /\
  follow three_stop_trip 0 1 "07:15:00" scan_range tally0 = Raise IndexError /\
  scan_station mc three_stop_trip "A" = Raise IndexError /\
  snd (schedule_router weekday_calendar trips three_stop_trip ["A"]) =
    Some IndexError /\
  trip_dict (fst (schedule_router weekday_calendar trips three_stop_trip ["A"]))
    !! "A" = None.
Proof.
  do 5 (split; [vm_compute; reflexivity|]). vm_compute. reflexivity.
Qed.

(** X11: whenever an origin event lies in the last row of the table, the scan
    reads past the end. *)
Lemma visit_last_row_raises mc st_np station r hour acc :
  st_np !! (length st_np - 1)%nat = Some r ->
  String.eqb (stop_id r) station = true ->
  Py.int (Py.slice_to 2 (departure_time r)) = Ok hour ->
  trip_id r ∈ mc ->
  in_window hour = true ->
  visit mc st_np station (length st_np - 1) acc = Raise IndexError.
Proof.
  intros Hr Hs Hh Hmc Hw. unfold visit. rewrite Hr. cbn [of_option bind].
  rewrite Hs, Hh. cbn [bind]. rewrite bool_decide_eq_true_2 by assumption.
  rewrite Hw. cbn [andb]. unfold scan_range. cbn [seq].
  apply follow_out_of_bounds.
  apply lookup_lt_Some in Hr. lia.
Qed.

(** ** Schedule Router: bounds on the running total *)

Lemma for_each_invariant {A S : Type} (P : S -> Prop)
    (body : A -> S -> result S) (l : list A) :
  (forall a s s', P s -> body a s = Ok s' -> P s') ->
  forall s s', P s -> for_each body l s = Ok s' -> P s'.
Proof.
  intros Hbody. induction l as [|a l IH]; intros s s' Hs H; simpl in H.
  - injection H as <-. exact Hs.
  - apply bind_ok in H as (s1 & H1 & H). eauto.
Qed.

Lemma record_trip_bounded (acc : tally) (arr dep : string) (minutes : Q) :
  tally_bounded acc -> elapsed_minutes arr dep = Ok minutes ->
  tally_bounded (record_trip acc minutes).
Proof.
  intros [H0 H1] He. unfold elapsed_minutes in He.
  apply bind_ok in He as (a & _ & He). apply bind_ok in He as (d & _ & He).
  injection He as <-.
  pose proof (timedelta_seconds_range a d) as Hz.
  set (z := Py.timedelta_seconds a d) in *.
  assert (Hm0 : (0 <= z # 60)%Q) by (unfold Qle; simpl; lia).
  assert (Hm1 : (z # 60 <= 86399 # 60)%Q) by (unfold Qle; simpl; lia).
  unfold tally_bounded, record_trip; cbn [time_total number_trips].
  rewrite Nat2Z.inj_succ. unfold Z.succ. rewrite inject_Z_plus.
  split.
  - apply Qle_trans with (0 + 0)%Q; [discriminate|]. apply Qplus_le_compat; assumption.
  - rewrite Qmult_plus_distr_l, Qmult_1_l. apply Qplus_le_compat; assumption.
Qed.

Lemma follow_bounded st_np i seq_begin dep ks :
  forall acc t, tally_bounded acc ->
    follow st_np i seq_begin dep ks acc = Ok t -> tally_bounded t.
Proof.
  induction ks as [|k ks IH]; intros acc t Hacc H; simpl in H.
  - injection H as <-. exact Hacc.
  - apply bind_ok in H as (r & _ & H).
    destruct (stop_sequence r <? seq_begin); [injection H as <-; exact Hacc|].
    destruct (String.eqb (stop_id r) MC); [|eauto].
    apply bind_ok in H as (m & Hm & H).
    eapply IH; [|exact H]. eapply record_trip_bounded; eassumption.
Qed.

Lemma visit_bounded mc st_np station i acc t :
  tally_bounded acc -> visit mc st_np station i acc = Ok t -> tally_bounded t.
Proof.
  intros Hacc H. unfold visit in H.
  apply bind_ok in H as (r & _ & H).
  destruct (String.eqb (stop_id r) station); [|injection H as <-; exact Hacc].
  apply bind_ok in H as (hour & _ & H).
  destruct (bool_decide (trip_id r ∈ mc) && in_window hour);
    [|injection H as <-; exact Hacc].
  eapply follow_bounded; eassumption.
Qed.

(** The total recorded for a station is a sum of per-trip values each in
    [0, 1440): with [n] trips it lies in [0, 1440 n), and is 0 for no trip. *)
Lemma scan_station_bounded mc st_np station t :
  scan_station mc st_np station = Ok t ->
  (0 <= time_total t)%Q /\
  (time_total t <= inject_Z (Z.of_nat (number_trips t)) * (86399 # 60))%Q /\
  (number_trips t <> 0%nat ->
   (time_total t < 1440 * inject_Z (Z.of_nat (number_trips t)))%Q).
Proof.
  intros H. unfold scan_station in H.
  assert (Hb : tally_bounded t).
  { assert (Hbase : tally_bounded tally0) by (split; vm_compute; discriminate).
    exact (for_each_invariant tally_bounded _ _
             (fun a s s' Hs Hv => visit_bounded _ _ _ a s s' Hs Hv)
             _ _ Hbase H). }
  destruct Hb as [H0 H1]. split; [exact H0|]. split; [exact H1|].
  intros Hn. eapply Qle_lt_trans; [exact H1|].
  rewrite (Qmult_comm 1440).
  apply Qmult_lt_l; [|reflexivity].
  unfold Qlt; simpl. lia.
Qed.

(** ** Schedule Router: the hour-24 rewrite *)

Lemma slice_to_2_00 (rest : string) :
  Py.slice_to 2 ("00" ++ rest)%string = "00".
Proof. destruct rest; reflexivity. Qed.

Lemma fix_arrival_inv (r r' : stop_time) :
  fix_arrival r = Ok r' ->
  exists h,
    Py.int (Py.slice_to 2 (arrival_time r)) = Ok h /\
    r' = (if h =? 24
          then with_arrival r ("00" ++ Py.slice_from 2 (arrival_time r))%string
          else r).
Proof.
  unfold fix_arrival. intros H. apply bind_ok in H as (h & Hh & H).
  exists h. split; [exact Hh|]. destruct (h =? 24); congruence.
Qed.

Lemma fix_arrival_hour (r r' : stop_time) :
  fix_arrival r = Ok r' ->
  Py.int (Py.slice_to 2 (arrival_time r')) <> Ok 24 /\
  departure_time r' = departure_time r.
Proof.
  intros H. apply fix_arrival_inv in H as (h & Hh & ->).
  destruct (Z.eqb_spec h 24) as [->|Hne].
  - split; [|reflexivity]. cbn [with_arrival arrival_time].
    rewrite slice_to_2_00. discriminate.
  - split; [congruence | reflexivity].
Qed.

Lemma fix_arrivals_inv (stop_times st_np : list stop_time) :
  fix_arrivals stop_times = Ok st_np ->
  Forall2 (fun r r' => fix_arrival r = Ok r') stop_times st_np.
Proof.
  revert st_np. induction stop_times as [|r rest IH]; intros st_np H; simpl in H.
  - injection H as <-. constructor.
  - apply bind_ok in H as (r' & Hr & H). apply bind_ok in H as (rest' & Hrest & H).
    injection H as <-. constructor; auto.
Qed.

Lemma spec_fix_departure_fields (r : stop_time) :
  trip_id (spec_fix_departure r) = trip_id r /\
  arrival_time (spec_fix_departure r) = arrival_time r /\
  stop_id (spec_fix_departure r) = stop_id r /\
  stop_sequence (spec_fix_departure r) = stop_sequence r.
Proof.
  unfold spec_fix_departure.
  destruct (Py.int _) as [h|]; [destruct (h =? 24)|]; repeat split.
Qed.

(** What the hour test of the scan sees on a rewritten departure. *)
Lemma spec_fix_departure_hour (r : stop_time) :
  departure_time (spec_fix_departure r) = departure_time r \/
  (Py.int (Py.slice_to 2 (departure_time r)) = Ok 24 /\
   Py.int (Py.slice_to 2 (departure_time (spec_fix_departure r))) = Ok 0).
Proof.
  unfold spec_fix_departure.
  destruct (Py.int _) as [h|] eqn:E; [|left; reflexivity].
  destruct (Z.eqb_spec h 24) as [->|Hne]; [|left; reflexivity].
  right. split; [reflexivity|].
  cbn [with_departure departure_time]. rewrite slice_to_2_00. reflexivity.
Qed.

Lemma follow_fix_departure st_np i seq_begin dep ks :
  forall acc,
    follow (spec_fix_departure <$> st_np) i seq_begin dep ks acc =
    follow st_np i seq_begin dep ks acc.
Proof.
  induction ks as [|k ks IH]; intros acc; [reflexivity|].
  cbn [follow]. rewrite list_lookup_fmap.
  destruct (st_np !! (i + k)%nat) as [r|]; [|reflexivity].
  cbn [fmap option_fmap option_map of_option bind].
  destruct (spec_fix_departure_fields r) as (_ & -> & -> & ->).
  destruct (stop_sequence r <? seq_begin); [reflexivity|].
  destruct (String.eqb (stop_id r) MC); [|apply IH].
  destruct (elapsed_minutes (arrival_time r) dep); [apply IH | reflexivity].
Qed.

Lemma visit_fix_departure mc st_np station i acc :
  visit mc (spec_fix_departure <$> st_np) station i acc =
  visit mc st_np station i acc.
Proof.
  unfold visit. rewrite list_lookup_fmap.
  destruct (st_np !! i) as [r|]; [|reflexivity].
  cbn [fmap option_fmap option_map of_option bind].
  destruct (spec_fix_departure_fields r) as (-> & _ & -> & ->).
  destruct (String.eqb (stop_id r) station); [|reflexivity].
  destruct (spec_fix_departure_hour r) as [->|[H24 H0]].
  - destruct (Py.int _) as [hour|]; [|reflexivity]. cbn [bind].
    destruct (_ && _); [apply follow_fix_departure | reflexivity].
  - rewrite H24, H0. cbn [bind]. rewrite !andb_false_r. reflexivity.
Qed.

Lemma for_each_ext {A S : Type} (body1 body2 : A -> S -> result S) (l : list A) :
  (forall a s, body1 a s = body2 a s) ->
  forall s, for_each body1 l s = for_each body2 l s.
Proof.
  intros Hext. induction l as [|a l IH]; intros s; [reflexivity|].
  simpl. rewrite Hext. destruct (body2 a s); simpl; auto.
Qed.

Lemma station_travel_fix_departure mc st_np station :
  station_travel mc (spec_fix_departure <$> st_np) station =
  station_travel mc st_np station.
Proof.
  unfold station_travel, scan_station. rewrite length_fmap.
  rewrite (for_each_ext _ (visit mc st_np station)); [reflexivity|].
  intros a s. apply visit_fix_departure.
Qed.

Lemma build_trip_dict_fix_departure mc st_np closest :
  forall s,
    build_trip_dict mc (spec_fix_departure <$> st_np) closest s =
    build_trip_dict mc st_np closest s.
Proof.
  induction closest as [|station rest IH]; intros s; [reflexivity|].
  simpl. rewrite station_travel_fix_departure.
  destruct (bool_decide _); [apply IH|].
  destruct (station_travel mc st_np station); [apply IH | reflexivity].
Qed.

Lemma mc_trips_fix_departure calendar trips stop_times :
  mc_trips calendar trips (spec_fix_departure <$> stop_times) =
  mc_trips calendar trips stop_times.
Proof.
  unfold mc_trips. f_equal.
  induction stop_times as [|r rest IH]; [reflexivity|].
  rewrite fmap_cons, !filter_cons.
  destruct (spec_fix_departure_fields r) as (Ht & _ & Hs & _).
  rewrite Ht, Hs.
  destruct (decide _); cbn [map]; rewrite IH; [rewrite Ht|]; reflexivity.
Qed.

Lemma fix_arrival_fix_departure (r : stop_time) :
  fix_arrival (spec_fix_departure r) =
  (do r' <- fix_arrival r; Ok (spec_fix_departure r')).
Proof.
  unfold fix_arrival.
  destruct (spec_fix_departure_fields r) as (_ & -> & _ & _).
  destruct (Py.int (Py.slice_to 2 (arrival_time r))) as [h|]; [|reflexivity].
  cbn [bind]. destruct (h =? 24); [|reflexivity].
  cbn [bind]. f_equal. unfold spec_fix_departure.
  cbn [with_arrival departure_time].
  destruct (Py.int _) as [h'|]; [destruct (h' =? 24)|]; reflexivity.
Qed.

Lemma fix_arrivals_fix_departure (stop_times : list stop_time) :
  fix_arrivals (spec_fix_departure <$> stop_times) =
  (do st_np <- fix_arrivals stop_times; Ok (spec_fix_departure <$> st_np)).
Proof.
  induction stop_times as [|r rest IH]; [reflexivity|].
  rewrite fmap_cons. cbn [fix_arrivals].
  rewrite fix_arrival_fix_departure, IH.
  destruct (fix_arrival r); [|reflexivity].
  cbn [bind]. destruct (fix_arrivals rest); reflexivity.
Qed.

(** With or without the rewrite on the departure column the router gives
    the same table, trace and outcome. *)
Lemma schedule_router_fix_departure calendar trips stop_times closest :
  schedule_router calendar trips (spec_fix_departure <$> stop_times) closest =
  schedule_router calendar trips stop_times closest.
Proof.
  unfold schedule_router.
  rewrite fix_arrivals_fix_departure, mc_trips_fix_departure.
  destruct (fix_arrivals stop_times) as [st_np|e]; [|reflexivity].
  cbn [bind]. apply build_trip_dict_fix_departure.
Qed.

(** A departure whose hour reads 24 fails the window test, as hour 0 does:
    the row is never an origin event and never enters the subtraction. *)
Lemma departure_hour24_not_an_origin mc st_np station i acc r :
  st_np !! i = Some r ->
  Py.int (Py.slice_to 2 (departure_time r)) = Ok 24 ->
  visit mc st_np station i acc = Ok acc.
Proof.
  intros Hr H24. unfold visit. rewrite Hr. cbn [of_option bind].
  destruct (String.eqb (stop_id r) station); [|reflexivity].
  rewrite H24. cbn [bind]. rewrite andb_false_r. reflexivity.
Qed.

(** C2: In[22] rewrites the arrival column only.  Every arrival whose hour
    reads 24 gets hour 00 (so "24:05:00" becomes "00:05:00" before any
    subtraction), no arrival reads 24 afterwards, and the departure column is
    left as it was; a departure with hour 24 fails the window test exactly as
    hour 00 does, so it never reaches the subtraction, and the router's
    result is the one it would give had departures been rewritten too. *)
Theorem hour24_rewrite_arrival_only
    (calendar : list calendar_row) (trips : list trip_row)
    (stop_times st_np : list stop_time) (closest : list string) :
  fix_arrivals stop_times = Ok st_np ->
  Forall2 (fun r r' =>
             exists h, Py.int (Py.slice_to 2 (arrival_time r)) = Ok h /\
               r' = (if h =? 24
                     then with_arrival r
                            ("00" ++ Py.slice_from 2 (arrival_time r))%string
                     else r))
          stop_times st_np /\
  Forall (fun r' => Py.int (Py.slice_to 2 (arrival_time r')) <> Ok 24) st_np /\
  departure_time <$> st_np = departure_time <$> stop_times /\
  (forall mc station i acc r,
     st_np !! i = Some r ->
     Py.int (Py.slice_to 2 (departure_time r)) = Ok 24 ->
     visit mc st_np station i acc = Ok acc) /\
  schedule_router calendar trips (spec_fix_departure <$> stop_times) closest =
  schedule_router calendar trips stop_times closest.
Proof.
  intros H. apply fix_arrivals_inv in H.
  split; [|split; [|split; [|split]]].
  - induction H as [|r r' l l' Hr _ IH]; constructor; auto.
    apply fix_arrival_inv; exact Hr.
  - induction H as [|r r' l l' Hr _ IH]; constructor; auto.
    apply (fix_arrival_hour r r' Hr).
  - induction H as [|r r' l l' Hr _ IH]; [reflexivity|].
    rewrite !fmap_cons, IH. f_equal. apply (fix_arrival_hour r r' Hr).
  - intros mc station i acc r. apply departure_hour24_not_an_origin.
  - apply schedule_router_fix_departure.
Qed.

Example arrival_2405_becomes_0005 :
  fix_arrival (st_row "T1" "24:05:00" "23:59:00" MC 9) =
  Ok (st_row "T1" "00:05:00" "23:59:00" MC 9) /\
  elapsed_minutes "24:05:00" "08:50:00" = Raise ValueError /\
  elapsed_minutes "00:05:00" "08:50:00" = Ok (54900 # 60)%Q.
Proof. repeat split. Qed.

Lemma hour24_rewrite_arrival_only_witness :
  Forall2 (fun r r' =>
             exists h, Py.int (Py.slice_to 2 (arrival_time r)) = Ok h /\
               r' = (if h =? 24
                     then with_arrival r
                            ("00" ++ Py.slice_from 2 (arrival_time r))%string
                     else r))
          hour24_table hour24_table_fixed /\
  Forall (fun r' => Py.int (Py.slice_to 2 (arrival_time r')) <> Ok 24)
         hour24_table_fixed /\
  departure_time <$> hour24_table_fixed = departure_time <$> hour24_table /\
  (forall mc station i acc r,
     hour24_table_fixed !! i = Some r ->
     Py.int (Py.slice_to 2 (departure_time r)) = Ok 24 ->
     visit mc hour24_table_fixed station i acc = Ok acc) /\
  schedule_router weekday_calendar [] (spec_fix_departure <$> hour24_table) ["A"] =
  schedule_router weekday_calendar [] hour24_table ["A"].
Proof.
  apply (hour24_rewrite_arrival_only weekday_calendar [] hour24_table
           hour24_table_fixed ["A"]).
  reflexivity.
Defined.

(** The departure column keeps its hour 24 through In[22]: it is not the case
    that every timestamp of the table has been brought to hour 00. *)
Lemma departure_hour24_survives :
  ~ (forall stop_times st_np : list stop_time,
       fix_arrivals stop_times = Ok st_np ->
       Forall (fun r =>
                 Py.int (Py.slice_to 2 (arrival_time r)) <> Ok 24 /\
                 Py.int (Py.slice_to 2 (departure_time r)) <> Ok 24) st_np).
Proof.
  intros H.
  specialize (H hour24_table hour24_table_fixed eq_refl).
  apply Forall_cons_1 in H as [[_ Hdep] _].
  apply Hdep. reflexivity.
Qed.

(** ** Schedule Router: memoisation *)

Lemma build_trip_dict_cached mc st_np station rest s :
  station ∈ dom (trip_dict s) ->
  build_trip_dict mc st_np (station :: rest) s = build_trip_dict mc st_np rest s.
Proof. intros H. simpl. rewrite bool_decide_eq_true_2 by exact H. reflexivity. Qed.

Lemma build_trip_dict_inv mc st_np closest :
  forall s,
    (NoDup (traversed s) ->
     (forall x, x ∈ traversed s -> x ∈ dom (trip_dict s)) ->
     NoDup (traversed (fst (build_trip_dict mc st_np closest s)))) /\
    (forall x, x ∈ traversed (fst (build_trip_dict mc st_np closest s)) ->
       x ∈ traversed s \/ (x ∈ closest /\ x ∉ dom (trip_dict s))) /\
    (forall x, x ∈ traversed s ->
       x ∈ traversed (fst (build_trip_dict mc st_np closest s))) /\
    (forall x v, trip_dict s !! x = Some v ->
       trip_dict (fst (build_trip_dict mc st_np closest s)) !! x = Some v) /\
    (snd (build_trip_dict mc st_np closest s) = None ->
     forall x, x ∈ closest ->
       exists v,
         trip_dict (fst (build_trip_dict mc st_np closest s)) !! x = Some v /\
         (x ∉ dom (trip_dict s) ->
          station_travel mc st_np x = Ok v /\
          x ∈ traversed (fst (build_trip_dict mc st_np closest s)))).
Proof.
  induction closest as [|station rest IH]; intros s.
  - simpl. repeat split; auto.
    intros _ x Hx. inversion Hx.
  - cbn [build_trip_dict]. case_bool_decide as Hdom.
    + destruct (IH s) as (IH1 & IH2 & IH3 & IH4 & IH5).
      split; [exact IH1|]. split; [|split; [exact IH3|split; [exact IH4|]]].
      * intros x Hx. destruct (IH2 x Hx) as [?|[? ?]]; [left|right]; auto.
        split; [right|]; assumption.
      * intros He x Hx. apply elem_of_cons in Hx as [->|Hx]; [|auto].
        apply elem_of_dom in Hdom as [v Hv]. exists v.
        split; [apply IH4; exact Hv|]. intros Hn. exfalso. apply Hn.
        apply elem_of_dom. eauto.
    + destruct (station_travel mc st_np station) as [v|e] eqn:Hst.
      * set (s1 := {| trip_dict := <[station:=v]> (trip_dict s);
                      traversed := traversed s ++ [station] |}).
        destruct (IH s1) as (IH1 & IH2 & IH3 & IH4 & IH5).
        assert (Hs1 : forall x, x ∈ traversed s1 -> x ∈ traversed s \/ x = station).
        { subst s1; cbn [traversed]. intros x Hx.
          apply elem_of_app in Hx as [?|Hx]; [left; assumption|].
          apply list_elem_of_singleton in Hx. right; assumption. }
        assert (Hd1 : forall x, x ∈ dom (trip_dict s) -> x ∈ dom (trip_dict s1)).
        { subst s1; cbn [trip_dict]. intros x Hx. rewrite dom_insert_L.
          apply elem_of_union_r. exact Hx. }
        assert (Hst1 : station ∈ dom (trip_dict s1)).
        { subst s1; cbn [trip_dict]. rewrite dom_insert_L.
          apply elem_of_union_l, elem_of_singleton. reflexivity. }
        split; [|split; [|split; [|split]]].
        -- intros Hnd Hsub. apply IH1.
           ++ subst s1; cbn [traversed]. apply NoDup_app. split; [exact Hnd|].
              split; [|apply NoDup_singleton].
              intros x Hx Hx'. apply list_elem_of_singleton in Hx'. subst x.
              apply Hdom, Hsub, Hx.
           ++ intros x Hx. destruct (Hs1 x Hx) as [?| ->]; auto.
        -- intros x Hx. destruct (IH2 x Hx) as [Hx1|[Hx1 Hx2]].
           ++ destruct (Hs1 x Hx1) as [?| ->]; [left; assumption|].
              right. split; [left|exact Hdom].
           ++ right. split; [right; exact Hx1|]. intros Hc. apply Hx2, Hd1, Hc.
        -- intros x Hx. apply IH3. subst s1; cbn [traversed].
           apply elem_of_app. left. exact Hx.
        -- intros x w Hx. apply IH4. subst s1; cbn [trip_dict].
           rewrite lookup_insert_ne; [exact Hx|].
           intros <-. apply Hdom, elem_of_dom. eauto.
        -- intros He x Hx. apply elem_of_cons in Hx as [->|Hx].
           ++ exists v. split.
              ** apply IH4. subst s1; cbn [trip_dict]. apply lookup_insert_eq.
              ** intros _. split; [exact Hst|]. apply IH3.
                 subst s1; cbn [traversed]. apply elem_of_app. right.
                 apply list_elem_of_singleton. reflexivity.
           ++ destruct (decide (x = station)) as [->|Hne].
              ** exists v. split.
                 --- apply IH4. subst s1; cbn [trip_dict]. apply lookup_insert_eq.
                 --- intros _. split; [exact Hst|]. apply IH3.
                     subst s1; cbn [traversed]. apply elem_of_app. right.
                     apply list_elem_of_singleton. reflexivity.
              ** destruct (IH5 He x Hx) as (w & Hw & Hw').
                 exists w. split; [exact Hw|]. intros Hn. apply Hw'.
                 subst s1; cbn [trip_dict]. rewrite dom_insert_L.
                 intros Hc. apply elem_of_union in Hc as [Hc|Hc]; [|auto].
                 apply elem_of_singleton in Hc. auto.
      * cbn [fst snd traversed trip_dict].
        split; [|split; [|split; [|split]]].
        -- intros Hnd Hsub. apply NoDup_app. split; [exact Hnd|].
           split; [|apply NoDup_singleton].
           intros x Hx Hx'. apply list_elem_of_singleton in Hx'. subst x.
           apply Hdom, Hsub, Hx.
        -- intros x Hx. apply elem_of_app in Hx as [?|Hx]; [left; assumption|].
           apply list_elem_of_singleton in Hx. subst x.
           right. split; [left|exact Hdom].
        -- intros x Hx. apply elem_of_app. left. exact Hx.
        -- auto.
        -- discriminate.
Qed.

Lemma build_trip_dict_app mc st_np (before after : list string) s :
  build_trip_dict mc st_np (before ++ after)%list s =
  match snd (build_trip_dict mc st_np before s) with
  | None => build_trip_dict mc st_np after (fst (build_trip_dict mc st_np before s))
  | Some e => build_trip_dict mc st_np before s
  end.
Proof.
  revert s. induction before as [|station rest IH]; intros s; [reflexivity|].
  cbn [app build_trip_dict]. case_bool_decide; [apply IH|].
  destruct (station_travel mc st_np station); [apply IH | reflexivity].
Qed.

Lemma initial_state_keys : dom (trip_dict initial_state) = {[ MC ]}.
Proof. unfold initial_state; cbn [trip_dict]. apply dom_singleton_L. Qed.

(** C8: across the whole property list the scan of the stop-times table is
    entered at most once per station id: the trace of stations scanned has no
    repetition, holds only stations of the list other than the pre-seeded
    destination, a station already a key is skipped without a scan or a
    change of state, a station seen earlier in the list is a key by the time
    it comes up again, and in a completed run every property reads from the
    table the value its station's single scan produced. *)
Theorem travel_time_computed_once
    (mc : gset string) (st_np : list stop_time) (closest : list string) :
  let out := build_trip_dict mc st_np closest initial_state in
  NoDup (traversed (fst out)) /\
  (forall x, x ∈ traversed (fst out) -> x ∈ closest /\ x <> MC) /\
  (forall station rest s,
     station ∈ dom (trip_dict s) ->
     build_trip_dict mc st_np (station :: rest) s =
     build_trip_dict mc st_np rest s) /\
  (forall (before : list string) (station : string) (after : list string),
     closest = (before ++ station :: after)%list ->
     station ∈ before ->
     snd (build_trip_dict mc st_np before initial_state) = None ->
     station ∈ dom (trip_dict (fst (build_trip_dict mc st_np before initial_state))) /\
     out = build_trip_dict mc st_np after
             (fst (build_trip_dict mc st_np before initial_state))) /\
  (snd out = None ->
   forall x, x ∈ closest ->
     exists v,
       trip_dict (fst out) !! x = Some v /\
       fill_travel_min (trip_dict (fst out)) x MinusOne = v /\
       (x = MC -> v = Minutes 0) /\
       (x <> MC -> station_travel mc st_np x = Ok v /\ x ∈ traversed (fst out))).
Proof.
  intros out. subst out.
  destruct (build_trip_dict_inv mc st_np closest initial_state)
    as (H1 & H2 & _ & H4 & H5).
  split; [|split; [|split; [|split]]].
  - apply H1; [constructor|]. intros x Hx. inversion Hx.
  - intros x Hx. destruct (H2 x Hx) as [Hx'|[Hx1 Hx2]]; [inversion Hx'|].
    split; [exact Hx1|]. intros ->. apply Hx2.
    rewrite initial_state_keys. apply elem_of_singleton. reflexivity.
  - intros station rest s. apply build_trip_dict_cached.
  - intros before station after -> Hin He.
    destruct (build_trip_dict_inv mc st_np before initial_state)
      as (_ & _ & _ & _ & B5).
    destruct (B5 He station Hin) as (v & Hv & _).
    assert (Hdom : station ∈ dom (trip_dict
                     (fst (build_trip_dict mc st_np before initial_state))))
      by (apply elem_of_dom; eauto).
    split; [exact Hdom|].
    rewrite build_trip_dict_app, He.
    apply build_trip_dict_cached. exact Hdom.
  - intros He x Hx. destruct (H5 He x Hx) as (v & Hv & Hv').
    exists v. split; [exact Hv|]. split; [unfold fill_travel_min; rewrite Hv; reflexivity|].
    split.
    + intros ->.
      assert (Hmc : trip_dict initial_state !! MC = Some (Minutes 0))
        by (unfold initial_state; cbn [trip_dict]; apply lookup_singleton_eq).
      apply H4 in Hmc. congruence.
    + intros Hne. apply Hv'. rewrite initial_state_keys.
      intros Hc. apply elem_of_singleton in Hc. auto.
Qed.

Lemma travel_time_computed_once_witness :
  NoDup (traversed (fst (build_trip_dict
                           (mc_trips weekday_calendar two_short_trips_trips
                              two_short_trips)
                           two_short_trips ["A"; MC; "A"] initial_state))).
Proof.
  apply (travel_time_computed_once
           (mc_trips weekday_calendar two_short_trips_trips two_short_trips)
           two_short_trips ["A"; MC; "A"]).
Defined.

(** Two properties share station "A", a third has the destination itself. *)
Example shared_station_scanned_once :
  let mc := mc_trips weekday_calendar two_short_trips_trips two_short_trips in
  let out := build_trip_dict mc two_short_trips ["A"; MC; "A"] initial_state in
  traversed (fst out) = ["A"] /\ snd out = None /\
  trip_dict (fst out) !! "A" = Some (Minutes 32) /\
  trip_dict (fst out) !! MC = Some (Minutes 0).
Proof. do 3 (split; [vm_compute; reflexivity|]). vm_compute. reflexivity. Qed.

(** ** Dictionaries *)

Lemma dict_set_keys {V : Type} (k : string) (v : V) (d : list (string * V)) :
  Dict.keys (Dict.set k v d) =
  if bool_decide (k ∈ Dict.keys d) then Dict.keys d else (Dict.keys d ++ [k])%list.
Proof.
  unfold Dict.keys. induction d as [|[k' v'] d IH]; [reflexivity|].
  cbn [Dict.set map fst]. destruct (String.eqb_spec k' k) as [->|Hne].
  - cbn [map fst]. rewrite bool_decide_eq_true_2 by (left). reflexivity.
  - cbn [map fst]. rewrite IH. case_bool_decide as Hin.
    + rewrite bool_decide_eq_true_2 by (right; exact Hin). reflexivity.
    + rewrite bool_decide_eq_false_2; [reflexivity|].
      intros Hc. apply elem_of_cons in Hc as [Hc|Hc]; congruence.
Qed.

Lemma dict_set_keys_NoDup {V : Type} (k : string) (v : V) (d : list (string * V)) :
  NoDup (Dict.keys d) -> NoDup (Dict.keys (Dict.set k v d)).
Proof.
  intros Hnd. rewrite dict_set_keys. case_bool_decide as Hin; [exact Hnd|].
  apply NoDup_app. split; [exact Hnd|]. split; [|apply NoDup_singleton].
  intros x Hx Hx'. apply list_elem_of_singleton in Hx'. congruence.
Qed.

Lemma dict_set_length {V : Type} (k : string) (v : V) (d : list (string * V)) :
  length (Dict.set k v d) =
  if bool_decide (k ∈ Dict.keys d) then length d else S (length d).
Proof.
  rewrite <- (length_map fst (Dict.set k v d)).
  change (map fst (Dict.set k v d)) with (Dict.keys (Dict.set k v d)).
  rewrite dict_set_keys. unfold Dict.keys.
  case_bool_decide; [apply length_map|].
  rewrite length_app, length_map. cbn [length]. lia.
Qed.

(** ** Geocoder *)

Section GeocoderProperties.

Variables (polygon point coord : Type).
Variable Point : coord -> coord -> point.
Variable contains : polygon -> point -> bool.

Lemma build_suburb_polygons_keys (records : list (string * polygon)) :
  NoDup (Dict.keys (build_suburb_polygons polygon records)).
Proof.
  unfold build_suburb_polygons.
  assert (H : forall d : list (string * polygon), NoDup (Dict.keys d) ->
            NoDup (Dict.keys
                     (fold_left (fun d rec => Dict.set (fst rec) (snd rec) d)
                        records d))).
  { induction records as [|rec records IH]; intros d Hd; [exact Hd|].
    cbn [fold_left]. apply IH, dict_set_keys_NoDup, Hd. }
  apply H. constructor.
Qed.

Lemma first_containing_none (items : list (string * polygon)) (p : point) :
  (forall j name poly, items !! j = Some (name, poly) -> contains poly p = false) ->
  first_containing polygon point contains items p = not_available.
Proof.
  induction items as [|[name poly] items IH]; intros H; [reflexivity|].
  cbn [first_containing]. rewrite (H 0%nat name poly eq_refl).
  apply IH. intros j name' poly' Hj. apply (H (S j) name' poly' Hj).
Qed.

Lemma first_containing_only (items : list (string * polygon)) (p : point) :
  forall i name poly,
    items !! i = Some (name, poly) ->
    contains poly p = true ->
    (forall j name' poly', j <> i -> items !! j = Some (name', poly') ->
       contains poly' p = false) ->
    first_containing polygon point contains items p = name.
Proof.
  induction items as [|[name0 poly0] items IH]; intros i name poly Hi Hc Hothers.
  - inversion Hi.
  - cbn [first_containing]. destruct i as [|i].
    + injection Hi as -> ->. rewrite Hc. reflexivity.
    + rewrite (Hothers 0%nat name0 poly0) by (auto || reflexivity).
      apply (IH i name poly Hi Hc).
      intros j name' poly' Hne Hj.
      apply (Hothers (S j) name' poly'); [lia | exact Hj].
Qed.

(** C6: when exactly one polygon of the dictionary contains the point (in
    shapely's sense, strictly inside), [in_suburb] returns that polygon's
    name; when none does it returns the sentinel "not available".  It is total:
    no case raises. *)
Theorem in_suburb_exactly_one_or_none
    (suburb_polygons : list (string * polygon)) (lat lon : coord) :
  (forall i name poly,
     suburb_polygons !! i = Some (name, poly) ->
     contains poly (Point lon lat) = true ->
     (forall j name' poly', j <> i ->
        suburb_polygons !! j = Some (name', poly') ->
        contains poly' (Point lon lat) = false) ->
     in_suburb polygon point coord Point contains suburb_polygons lat lon = name) /\
  ((forall j name' poly',
      suburb_polygons !! j = Some (name', poly') ->
      contains poly' (Point lon lat) = false) ->
   in_suburb polygon point coord Point contains suburb_polygons lat lon =
   not_available).
Proof.
  unfold in_suburb. split.
  - apply first_containing_only.
  - apply first_containing_none.
Qed.

End GeocoderProperties.

Lemma in_suburb_exactly_one_or_none_witness :
  in_suburb box (Z * Z)%type Z box_point box_contains two_boxes 5 15 = "FITZROY" /\
  in_suburb box (Z * Z)%type Z box_point box_contains two_boxes 5 10 = not_available.
Proof.
  destruct (in_suburb_exactly_one_or_none box (Z * Z)%type Z box_point
              box_contains two_boxes 5 15) as [Hone _].
  destruct (in_suburb_exactly_one_or_none box (Z * Z)%type Z box_point
              box_contains two_boxes 5 10) as [_ Hnone].
  split.
  - apply (Hone 1%nat "FITZROY" ((10, 0), (20, 10))); [reflexivity..|].
    intros [|[|j]] name' poly' Hne Hj; [|lia|discriminate].
    injection Hj as <- <-. reflexivity.
  - apply Hnone.
    intros [|[|j]] name' poly' Hj; [| |discriminate];
      injection Hj as <- <-; reflexivity.
Defined.

(** ** LGA fill loop *)

Lemma suburb_matches_spec (suburb v : string) :
  suburb_matches suburb v = true <->
  suburb <> "" /\ v <> "" /\ Py.lower suburb = Py.lower v.
Proof.
  unfold suburb_matches. rewrite !andb_true_iff, String.eqb_eq.
  destruct suburb, v; cbn [Py.truthy]; intuition congruence.
Qed.

Lemma fill_from_value_last (suburb key : string) (value : list string) :
  forall lga,
    fill_from_value suburb key value lga =
    match last (List.filter (fun kv => suburb_matches suburb (snd kv))
                  (map (fun v => (key, v)) value)) with
    | Some kv => fst kv
    | None => lga
    end.
Proof.
  induction value as [|v value IH]; intros lga; [reflexivity|].
  cbn [fill_from_value map List.filter snd]. rewrite IH.
  destruct (suburb_matches suburb v); [|reflexivity].
  rewrite last_cons. destruct (last _); reflexivity.
Qed.

Lemma fill_from_items_last (suburb : string) (items : list (string * list string)) :
  forall lga,
    fill_from_items suburb items lga =
    match last (matching_pairs suburb items) with
    | Some kv => fst kv
    | None => lga
    end.
Proof.
  unfold matching_pairs, lga_pairs.
  induction items as [|[key value] items IH]; intros lga; [reflexivity|].
  cbn [fill_from_items flat_map fst snd].
  rewrite IH, fill_from_value_last, List.filter_app, last_app.
  destruct (last (List.filter _ (flat_map _ items))); reflexivity.
Qed.

(** C3: for every suburb the fill loop scans all (region, suburb) pairs of
    the dictionary in order and leaves in [Lga] the region of the last pair
    whose suburb equals the property's, letter case aside and both non-empty;
    with no such pair the cell keeps the sentinel "not available". *)
Theorem fill_lga_last_match (d : list (string * list string)) (suburb : string) :
  (forall key v,
     last (matching_pairs suburb d) = Some (key, v) ->
     fill_lga d suburb = key) /\
  (matching_pairs suburb d = [] -> fill_lga d suburb = not_available) /\
  (forall key v,
     (key, v) ∈ matching_pairs suburb d <->
     (key, v) ∈ lga_pairs d /\
     suburb <> "" /\ v <> "" /\ Py.lower suburb = Py.lower v).
Proof.
  unfold fill_lga. split; [|split].
  - intros key v H. rewrite fill_from_items_last, H. reflexivity.
  - intros H. rewrite fill_from_items_last, H. reflexivity.
  - intros key v. unfold matching_pairs.
    rewrite !list_elem_of_In, List.filter_In. cbn [snd].
    rewrite suburb_matches_spec. reflexivity.
Qed.

Lemma fill_lga_last_match_witness :
  fill_lga carlton_twice "CARLTON" = "YARRA" /\
  fill_lga carlton_twice "RICHMOND" = not_available.
Proof.
  destruct (fill_lga_last_match carlton_twice "CARLTON") as (Hlast & _ & _).
  destruct (fill_lga_last_match carlton_twice "RICHMOND") as (_ & Hnone & _).
  split.
  - apply (Hlast "YARRA" "Carlton"). reflexivity.
  - apply Hnone. reflexivity.
Defined.

(** The first matching pair does not decide the region when a later pair
    matches too. *)
Lemma fill_lga_not_first_match :
  ~ (forall (d : list (string * list string)) (suburb key v : string),
       head (matching_pairs suburb d) = Some (key, v) ->
       fill_lga d suburb = key).
Proof.
  intros H.
  specialize (H carlton_twice "CARLTON" "MELBOURNE" "Carlton" eq_refl).
  vm_compute in H. discriminate.
Qed.

(** ** Merging the property feeds *)

Section MergeProperties.

Context {cell : Type} `{EqDecision cell}.

Implicit Types (r : property cell) (rows seen : list (property cell)).

Lemma drop_duplicates_from_elem seen rows r :
  r ∈ drop_duplicates_from seen rows <-> r ∈ rows /\ r ∉ seen.
Proof.
  revert seen. induction rows as [|r0 rows IH]; intros seen.
  - cbn [drop_duplicates_from]. split; [intros Hc; inversion Hc|].
    intros [Hc _]. inversion Hc.
  - cbn [drop_duplicates_from]. destruct (decide (r0 ∈ seen)) as [Hin|Hout].
    + rewrite IH, elem_of_cons. split; [intros [? ?]; auto|].
      intros [[->|?] ?]; [contradiction | auto].
    + rewrite !elem_of_cons, IH, elem_of_cons.
      destruct (decide (r = r0)) as [->|Hne]; [tauto|]. tauto.
Qed.

Lemma drop_duplicates_from_NoDup seen rows :
  NoDup (drop_duplicates_from seen rows).
Proof.
  revert seen. induction rows as [|r0 rows IH]; intros seen.
  - constructor.
  - cbn [drop_duplicates_from]. destruct (decide (r0 ∈ seen)); [apply IH|].
    constructor; [|apply IH].
    rewrite drop_duplicates_from_elem, elem_of_cons. tauto.
Qed.

Lemma drop_duplicates_from_sublist seen rows :
  sublist (drop_duplicates_from seen rows) rows.
Proof.
  revert seen. induction rows as [|r0 rows IH]; intros seen.
  - constructor.
  - cbn [drop_duplicates_from]. destruct (decide (r0 ∈ seen)).
    + apply sublist_cons, IH.
    + apply sublist_skip, IH.
Qed.

(** A row is kept where it is first seen: appended at the end of what was
    kept so far when it is new, dropped when an equal row came before. *)
Lemma drop_duplicates_from_snoc seen rows r :
  drop_duplicates_from seen (rows ++ [r]) =
  if decide (r ∈ seen \/ r ∈ rows) then drop_duplicates_from seen rows
  else (drop_duplicates_from seen rows ++ [r])%list.
Proof.
  revert seen. induction rows as [|r0 rows IH]; intros seen.
  - cbn [app drop_duplicates_from].
    destruct (decide (r ∈ seen)) as [Hin|Hout].
    + rewrite decide_True by auto. reflexivity.
    + rewrite decide_False; [reflexivity|].
      intros [?|Hc]; [auto | inversion Hc].
  - cbn [app drop_duplicates_from]. destruct (decide (r0 ∈ seen)) as [Hin|Hout].
    + rewrite IH. destruct (decide (r ∈ seen \/ r ∈ rows)) as [Hd|Hd].
      * rewrite decide_True; [reflexivity|].
        destruct Hd; [left | right; right]; assumption.
      * rewrite decide_False; [reflexivity|].
        intros [?|Hc]; [tauto|]. apply elem_of_cons in Hc as [->|?]; tauto.
    + rewrite IH. destruct (decide (r ∈ r0 :: seen \/ r ∈ rows)) as [Hd|Hd].
      * rewrite decide_True; [reflexivity|].
        destruct Hd as [Hd|Hd]; [|right; right; exact Hd].
        apply elem_of_cons in Hd as [->|?]; [right; left | left; assumption].
      * rewrite decide_False; [reflexivity|].
        intros [?|Hc]; [apply Hd; left; right; assumption|].
        apply elem_of_cons in Hc as [->|?]; apply Hd; [left; left | right; assumption].
Qed.

Lemma occurrences_cons (id : cell) r rows :
  occurrences id (r :: rows) =
  ((if decide (property_id r = id) then 1 else 0) + occurrences id rows)%nat.
Proof.
  unfold occurrences. rewrite filter_cons.
  destruct (decide (property_id r = id)); reflexivity.
Qed.

Lemma occurrences_none (id : cell) rows :
  id ∉ property_id <$> rows -> occurrences id rows = 0%nat.
Proof.
  induction rows as [|r rows IH]; intros Hout; [reflexivity|].
  rewrite occurrences_cons, IH.
  - destruct (decide (property_id r = id)) as [<-|_]; [|reflexivity].
    exfalso. apply Hout. left.
  - intros Hc. apply Hout. right. exact Hc.
Qed.

Lemma occurrences_some (id : cell) rows :
  id ∈ property_id <$> rows -> (1 <= occurrences id rows)%nat.
Proof.
  induction rows as [|r rows IH]; intros Hin; [inversion Hin|].
  rewrite occurrences_cons. rewrite fmap_cons in Hin.
  apply elem_of_cons in Hin as [->|Hin].
  - rewrite decide_True by reflexivity. lia.
  - apply IH in Hin. lia.
Qed.

Lemma no_repeated_identifier rows :
  (forall r, r ∈ rows -> (occurrences (property_id r) rows <= 1)%nat) <->
  NoDup (property_id <$> rows).
Proof.
  induction rows as [|r rows IH].
  - split; [constructor | intros _ r Hr; inversion Hr].
  - rewrite fmap_cons, NoDup_cons. split.
    + intros Hall. split.
      * intros Hin. apply occurrences_some in Hin.
        pose proof (Hall r ltac:(left)) as Hr. rewrite occurrences_cons in Hr.
        rewrite decide_True in Hr by reflexivity. lia.
      * apply IH. intros r' Hr'. pose proof (Hall r' ltac:(right; exact Hr')) as H'.
        rewrite occurrences_cons in H'. lia.
    + intros [Hout Hnd] r' Hr'. rewrite occurrences_cons.
      apply elem_of_cons in Hr' as [->|Hr'].
      * rewrite decide_True by reflexivity. rewrite occurrences_none by exact Hout. lia.
      * rewrite decide_False.
        -- apply IH; assumption.
        -- intros Heq. apply Hout. rewrite Heq.
           apply list_elem_of_fmap. exists r'. auto.
Qed.

Lemma show_duplicates_returns rows :
  returns (show_duplicates rows) <-> ~ NoDup (property_id <$> rows).
Proof.
  unfold show_duplicates. destruct rows as [|r1 rows1] eqn:Erows.
  { split; [intros [u Hu]; discriminate|]. intros Hnd. exfalso. apply Hnd. constructor. }
  rewrite <- Erows. clear Erows r1 rows1.
  destruct (filter _ rows) as [|r0 l] eqn:E.
  - split; [intros [u Hu]; discriminate|].
    intros Hnd. exfalso. apply Hnd, no_repeated_identifier. intros r Hr.
    destruct (le_lt_dec (occurrences (property_id r) rows) 1) as [Hle|Hgt];
      [exact Hle|].
    assert (Hin : r ∈ filter (fun r => 1 < occurrences (property_id r) rows)%nat rows)
      by (apply list_elem_of_filter; split; [exact Hgt | exact Hr]).
    rewrite E in Hin. inversion Hin.
  - split; [|intros _; exists tt; reflexivity].
    intros _ Hnd.
    assert (Hin : r0 ∈ filter (fun r => 1 < occurrences (property_id r) rows)%nat rows)
      by (rewrite E; left).
    apply list_elem_of_filter in Hin as [Hgt Hr0].
    pose proof (proj2 (no_repeated_identifier rows) Hnd r0 Hr0). lia.
Qed.

(** X21: the cleaned set is built exactly when some property identifier
    occurs more than once in the two feeds together; otherwise In[4] ends the
    run, with [ValueError], or with [KeyError] when the feeds have no row at
    all.  When it is built it holds exactly one copy of
    every distinct record of the feeds, records being compared on all their
    fields, in the order of their first occurrence. *)
Theorem clean_data_completes (content data : list (property cell)) :
  (returns (clean_data content data) <->
   ~ NoDup (property_id <$> (content ++ data)%list)) /\
  (forall e, clean_data content data = Raise e ->
     ((content ++ data)%list <> [] /\ e = ValueError) \/
     ((content ++ data)%list = [] /\ e = KeyError)) /\
  (forall rows,
     clean_data content data = Ok rows ->
     NoDup rows /\
     (forall r, r ∈ rows <-> r ∈ (content ++ data)%list) /\
     sublist rows (content ++ data)%list).
Proof.
  unfold clean_data. cbn zeta. split; [|split].
  - rewrite <- show_duplicates_returns.
    destruct (show_duplicates (content ++ data)%list) as [u|e]; cbn [bind].
    + split; intros _; eexists; reflexivity.
    + split; intros [x Hx]; discriminate.
  - intros e. unfold show_duplicates.
    destruct (content ++ data)%list as [|r0 l] eqn:E;
      [cbn [bind]; intros [= <-]; right; auto|].
    destruct (filter _ (r0 :: l)); cbn [bind]; [|discriminate].
    intros [= <-]. left. split; [discriminate | reflexivity].
  - intros rows H. apply bind_ok in H as (u & _ & H). injection H as <-.
    unfold drop_duplicates. split; [apply drop_duplicates_from_NoDup|].
    split; [|apply drop_duplicates_from_sublist].
    intros r. rewrite drop_duplicates_from_elem. split; [tauto|].
    intros Hr. split; [exact Hr|]. intros Hc. inversion Hc.
Qed.

End MergeProperties.

(** C4: two records of the XML feed carry the identifier 1001 and differ in
    the street address only.  In[4] finds the identifier repeated, and
    [drop_duplicates], which compares whole rows, keeps both: the cleaned set
    has two records for one identifier. *)
Theorem same_identifier_kept_twice :
  clean_data [] same_id_two_addresses = Ok same_id_two_addresses /\
  property_id <$> same_id_two_addresses = ["1001"; "1001"] /\
  ~ NoDup (property_id <$> same_id_two_addresses).
Proof.
  split; [vm_compute; reflexivity|]. split; [reflexivity|].
  intros H. apply NoDup_cons_1_1 in H. apply H. left.
Qed.

(** A feed in which no identifier is repeated is not cleaned at all. *)
Example clean_data_without_repetition :
  clean_data [] (take 1 same_id_two_addresses) = Raise ValueError.
Proof. vm_compute. reflexivity. Qed.

(** ** Nearest station *)

Section NearestStationProperties.

Variable radians : Q -> Q.
Variable haversine_distances : Q * Q -> Q * Q -> Q * Q.
Variables (lat lon : Q).

Local Abbreviation d := (result_dist radians haversine_distances lat lon).

Lemma consider_inv (l : list stop) (s : nearest) (st : stop) :
  nearest_inv d l s ->
  nearest_inv d (l ++ [st]) (consider radians haversine_distances lat lon s st).
Proof.
  intros Hinv. unfold consider.
  destruct (Qlt_le_dec (d st) (min_dist s)) as [Hlt|Hle].
  - right. split; [reflexivity|]. exists (length l), st.
    assert (Hbelow : (d st < 1)%Q /\
                     forall st', st' ∈ l -> (d st < d st')%Q).
    { destruct Hinv as [(_ & Hmin & Hall)|(_ & j & st0 & Hj & Hmin & _ & H1 & Hall & _)].
      - rewrite Hmin in Hlt. split; [exact Hlt|].
        intros st' Hst'. eapply Qlt_le_trans; [exact Hlt | apply Hall, Hst'].
      - rewrite Hmin in Hlt. split; [eapply Qlt_trans; eassumption|].
        intros st' Hst'. apply list_elem_of_lookup in Hst' as [k Hk].
        eapply Qlt_le_trans; [exact Hlt | eapply Hall, Hk]. }
    destruct Hbelow as [H1 Hall].
    split; [apply list_lookup_middle; reflexivity|].
    split; [reflexivity|]. split; [reflexivity|]. split; [exact H1|]. split.
    + intros k st' Hk. apply lookup_app_Some in Hk as [Hk|[_ Hk]].
      * apply Qlt_le_weak, Hall. eapply list_elem_of_lookup_2, Hk.
      * apply list_lookup_singleton_Some in Hk as [_ <-]. apply Qle_refl.
    + intros k st' Hlt' Hk. apply lookup_app_Some in Hk as [Hk|[Hge _]]; [|lia].
      apply Hall. eapply list_elem_of_lookup_2, Hk.
  - destruct Hinv as [(Hc & Hmin & Hall)|(Hc & j & st0 & Hj & Hmin & Hid & H1 & Hall & Hfirst)].
    + left. split; [exact Hc|]. split; [exact Hmin|].
      intros st' Hst'. apply elem_of_app in Hst' as [Hst'|Hst']; [auto|].
      apply list_elem_of_singleton in Hst'. subst st'.
      rewrite Hmin in Hle. exact Hle.
    + right. split; [exact Hc|]. exists j, st0.
      split; [apply lookup_app_l_Some; exact Hj|].
      split; [exact Hmin|]. split; [exact Hid|]. split; [exact H1|]. split.
      * intros k st' Hk. apply lookup_app_Some in Hk as [Hk|[_ Hk]]; [eauto|].
        apply list_lookup_singleton_Some in Hk as [_ <-].
        rewrite Hmin in Hle. exact Hle.
      * intros k st' Hlt' Hk. apply lookup_app_Some in Hk as [Hk|[Hge _]]; [eauto|].
        apply lookup_lt_Some in Hj. lia.
Qed.

Lemma scan_stops_inv (closest_before : string) (stops : list stop) :
  nearest_inv d stops
    (scan_stops radians haversine_distances closest_before lat lon stops).
Proof.
  unfold scan_stops. induction stops as [|st stops IH] using rev_ind.
  - left. cbn [fold_left dist_changed min_dist]. repeat split.
    intros st Hst. inversion Hst.
  - rewrite fold_left_app. cbn [fold_left]. apply consider_inv, IH.
Qed.

(** C5: when some station lies at angular distance below 1 (the initial
    running minimum), the finder returns the identifier of the first station
    of the table that attains the minimum distance over the whole table,
    with that distance multiplied by 6378: no station is nearer and every
    earlier one is strictly farther.  When every station is at distance 1 or
    more the two cells keep their defaults. *)
Theorem nearest_station_first_minimum
    (closest_before : string) (stops : list stop) :
  ((exists st, st ∈ stops /\ (d st < 1)%Q) ->
   exists j st,
     stops !! j = Some st /\
     nearest_station radians haversine_distances closest_before lat lon stops =
       Some (stops_stop_id st, (d st * 6378)%Q) /\
     (forall k st', stops !! k = Some st' -> (d st <= d st')%Q) /\
     (forall k st', (k < j)%nat -> stops !! k = Some st' -> (d st < d st')%Q)) /\
  ((forall st, st ∈ stops -> (1 <= d st)%Q) ->
   nearest_station radians haversine_distances closest_before lat lon stops =
     None).
Proof.
  unfold nearest_station.
  destruct (scan_stops_inv closest_before stops)
    as [(Hc & Hmin & Hall)|(Hc & j & st0 & Hj & Hmin & Hid & H1 & Hall & Hfirst)].
  - split.
    + intros (st & Hst & Hlt). exfalso.
      apply (Qlt_not_le _ _ Hlt). apply Hall, Hst.
    + intros _. rewrite Hc. reflexivity.
  - split.
    + intros _. exists j, st0. rewrite Hc, Hmin, Hid. auto.
    + intros Hfar. exfalso. apply (Qlt_not_le _ _ H1).
      apply Hfar. eapply list_elem_of_lookup_2, Hj.
Qed.

End NearestStationProperties.

Lemma nearest_station_first_minimum_witness :
  exists j st,
    equator_stops !! j = Some st /\
    nearest_station radians_approx haversine_on_equator "" 0 0 equator_stops =
      Some (stops_stop_id st,
            (result_dist radians_approx haversine_on_equator 0 0 st * 6378)%Q) /\
    (forall k st', equator_stops !! k = Some st' ->
       (result_dist radians_approx haversine_on_equator 0 0 st <=
        result_dist radians_approx haversine_on_equator 0 0 st')%Q) /\
    (forall k st', (k < j)%nat -> equator_stops !! k = Some st' ->
       (result_dist radians_approx haversine_on_equator 0 0 st <
        result_dist radians_approx haversine_on_equator 0 0 st')%Q).
Proof.
  apply (nearest_station_first_minimum radians_approx haversine_on_equator
           0 0 "" equator_stops).
  exists {| stops_stop_id := "19841"; stop_lat := 0; stop_lon := 10 |}.
  split; [left | reflexivity].
Defined.

(** The first of the two stations at five degrees is the one returned. *)
Example nearest_station_tie :
  exists km,
    nearest_station radians_approx haversine_on_equator "" 0 0 equator_stops =
      Some ("19842", km) /\
    (km == 5 * pi_approx / 180 * 6378)%Q.
Proof. eexists. split; [vm_compute; reflexivity|]. reflexivity. Qed.

(** A table whose only station is a radian or more away has a station at
    minimal distance, and the finder returns none. *)
Lemma nearest_station_beyond_one_radian :
  ~ (forall (radians : Q -> Q) (haversine_distances : Q * Q -> Q * Q -> Q * Q)
            (closest_before : string) (lat lon : Q) (stops : list stop),
       stops <> [] ->
       exists j st,
         stops !! j = Some st /\
         nearest_station radians haversine_distances closest_before lat lon stops =
           Some (stops_stop_id st,
                 (result_dist radians haversine_distances lat lon st * 6378)%Q) /\
         (forall k st', stops !! k = Some st' ->
            (result_dist radians haversine_distances lat lon st <=
             result_dist radians haversine_distances lat lon st')%Q)).
Proof.
  intros H.
  destruct (H radians_approx haversine_on_equator "" 0%Q 0%Q antipodal_stop)
    as (j & st & _ & Hret & _); [discriminate|].
  vm_compute in Hret. discriminate.
Qed.

(** ** LGA dictionary *)

Section LGAProperties.

Variable literal_eval : string -> result (list string).

Implicit Types (d : list (string * list string)).

Lemma for_each_assign (p : page) (fixed_sub : list string) :
  forall n i d,
    (i + n <= length (LGA p))%nat -> (i + n <= length fixed_sub)%nat ->
    for_each (assign literal_eval p fixed_sub) (seq i n) d =
    assign_all literal_eval (take n (drop i (LGA p))) (take n (drop i fixed_sub)) d.
Proof.
  induction n as [|n IH]; intros i d Hk Ht.
  - rewrite !take_0. reflexivity.
  - cbn [seq for_each]. unfold assign at 1.
    destruct (lookup_lt_is_Some_2 (LGA p) i) as [key Hkey]; [lia|].
    destruct (lookup_lt_is_Some_2 fixed_sub i) as [text Htext]; [lia|].
    rewrite Hkey, Htext. cbn [of_option bind].
    rewrite (drop_S _ _ _ Hkey), (drop_S _ _ _ Htext). cbn [take assign_all].
    destruct (literal_eval text) as [value|e]; [|reflexivity].
    cbn [bind]. apply IH; lia.
Qed.

Lemma read_page_equal (p : page) (s : lga_state) :
  length (LGA p) = length (suburbs p) ->
  read_page literal_eval p s =
  (do d <- assign_all literal_eval (LGA p) (map remove_newlines (suburbs p))
             (LGA_dict s);
   Ok {| LGA_dict := d; printed := printed s |}).
Proof.
  intros Hlen. unfold read_page. rewrite Hlen, Nat.eqb_refl, <- Hlen.
  rewrite for_each_assign by (rewrite ?length_map; lia).
  rewrite !drop_0, firstn_all.
  replace (length (LGA p)) with (length (map remove_newlines (suburbs p)))
    by (rewrite length_map; lia).
  rewrite firstn_all. reflexivity.
Qed.

Lemma read_page_mismatch (p : page) (s : lga_state) :
  length (LGA p) <> length (suburbs p) ->
  read_page literal_eval p s =
  Ok {| LGA_dict := LGA_dict s; printed := (printed s ++ [read_error])%list |}.
Proof.
  intros Hlen. unfold read_page.
  destruct (Nat.eqb_spec (length (LGA p)) (length (suburbs p))); [contradiction|].
  reflexivity.
Qed.

Lemma assign_all_total (keys texts : list string) :
  forall d,
    Forall (fun text => returns (literal_eval text)) texts ->
    returns (assign_all literal_eval keys texts d).
Proof.
  revert texts. induction keys as [|key keys IH]; intros texts d Hall.
  - exists d. reflexivity.
  - destruct texts as [|text texts]; [exists d; reflexivity|].
    apply Forall_cons_1 in Hall as [[value Hv] Hall].
    cbn [assign_all]. rewrite Hv. cbn [bind]. apply IH, Hall.
Qed.

Lemma assign_all_values (keys texts : list string) :
  forall d d',
    length keys = length texts ->
    assign_all literal_eval keys texts d = Ok d' ->
    exists values,
      Forall2 (fun text value => literal_eval text = Ok value) texts values /\
      d' = fold_left (fun d kv => Dict.set (fst kv) (snd kv) d) (zip keys values) d.
Proof.
  revert texts. induction keys as [|key keys IH]; intros texts d d' Hlen H.
  - destruct texts; [|discriminate]. injection H as <-.
    exists []. split; [constructor | reflexivity].
  - destruct texts as [|text texts]; [discriminate|].
    cbn [assign_all] in H. apply bind_ok in H as (value & Hv & H).
    apply IH in H as (values & Hvalues & ->); [|simpl in Hlen; lia].
    exists (value :: values). split; [constructor; assumption | reflexivity].
Qed.

Lemma assign_all_length (keys texts : list string) :
  forall d d',
    assign_all literal_eval keys texts d = Ok d' ->
    (length d <= length d' <= length d + length keys)%nat.
Proof.
  revert texts. induction keys as [|key keys IH]; intros texts d d' H.
  - injection H as <-. simpl. lia.
  - destruct texts as [|text texts]; [injection H as <-; simpl; lia|].
    cbn [assign_all] in H. apply bind_ok in H as (value & Hv & H).
    apply IH in H. rewrite dict_set_length in H. cbn [length].
    case_bool_decide; lia.
Qed.

Lemma assign_all_fresh (keys texts : list string) :
  forall d d',
    length keys = length texts ->
    NoDup keys -> (forall k, k ∈ keys -> k ∉ Dict.keys d) ->
    assign_all literal_eval keys texts d = Ok d' ->
    Dict.keys d' = (Dict.keys d ++ keys)%list.
Proof.
  revert texts. induction keys as [|key keys IH]; intros texts d d' Hlen Hnd Hfresh H.
  - injection H as <-. rewrite app_nil_r. reflexivity.
  - destruct texts as [|text texts]; [discriminate|].
    cbn [assign_all] in H. apply bind_ok in H as (value & Hv & H).
    apply NoDup_cons in Hnd as [Hkey Hnd].
    assert (Hd : Dict.keys (Dict.set key value d) = (Dict.keys d ++ [key])%list).
    { rewrite dict_set_keys, bool_decide_eq_false_2; [reflexivity|].
      apply Hfresh. left. }
    apply IH in H; [| simpl in Hlen; lia | exact Hnd |].
    + rewrite H, Hd, <- app_assoc. reflexivity.
    + intros k Hk. rewrite Hd. intros Hc.
      apply elem_of_app in Hc as [Hc|Hc].
      * apply (Hfresh k); [right; exact Hk | exact Hc].
      * apply list_elem_of_singleton in Hc. subst k. contradiction.
Qed.

(** C7: a page whose count of captured region names differs from its count
    of captured bracket groups leaves the dictionary as it was, prints the
    error line, and the loop goes on with the next page.  A page with equal
    counts prints nothing and makes one assignment per region name, in order,
    with the evaluated group as value, a later assignment to a name
    replacing the earlier value: it ends normally when every group evaluates,
    adds at most as many entries as it has names, and adds exactly its names,
    in order, when they are pairwise distinct and not yet keys. *)
Theorem read_page_structural_check (p : page) (s : lga_state) :
  (length (LGA p) <> length (suburbs p) ->
   read_page literal_eval p s =
     Ok {| LGA_dict := LGA_dict s; printed := (printed s ++ [read_error])%list |} /\
   forall rest,
     for_each (read_page literal_eval) (p :: rest) s =
     for_each (read_page literal_eval) rest
       {| LGA_dict := LGA_dict s; printed := (printed s ++ [read_error])%list |}) /\
  (length (LGA p) = length (suburbs p) ->
   (Forall (fun text => returns (literal_eval (remove_newlines text))) (suburbs p) ->
    returns (read_page literal_eval p s)) /\
   forall s',
     read_page literal_eval p s = Ok s' ->
     printed s' = printed s /\
     (exists values,
        Forall2 (fun text value => literal_eval (remove_newlines text) = Ok value)
          (suburbs p) values /\
        LGA_dict s' =
          fold_left (fun d kv => Dict.set (fst kv) (snd kv) d)
            (zip (LGA p) values) (LGA_dict s)) /\
     (length (LGA_dict s) <= length (LGA_dict s')
      <= length (LGA_dict s) + length (LGA p))%nat /\
     (NoDup (LGA p) ->
      (forall k, k ∈ LGA p -> k ∉ Dict.keys (LGA_dict s)) ->
      Dict.keys (LGA_dict s') = (Dict.keys (LGA_dict s) ++ LGA p)%list)).
Proof.
  split.
  - intros Hlen. split; [apply read_page_mismatch, Hlen|].
    intros rest. cbn [for_each]. rewrite read_page_mismatch by exact Hlen.
    reflexivity.
  - intros Hlen. rewrite read_page_equal by exact Hlen. split.
    + intros Hall.
      destruct (assign_all_total (LGA p) (map remove_newlines (suburbs p))
                  (LGA_dict s)) as [d Hd].
      { apply List.Forall_map. exact Hall. }
      rewrite Hd. eexists. reflexivity.
    + intros s' H. apply bind_ok in H as (d & Hd & H). injection H as <-.
      cbn [printed LGA_dict].
      assert (Hlen' : length (LGA p) = length (map remove_newlines (suburbs p)))
        by (rewrite length_map; exact Hlen).
      split; [reflexivity|]. split; [|split].
      * destruct (assign_all_values _ _ _ _ Hlen' Hd) as (values & Hv & ->).
        exists values. split; [|reflexivity].
        clear -Hv. remember (map remove_newlines (suburbs p)) as texts eqn:E.
        revert E. generalize (suburbs p). clear p.
        induction Hv as [|text value texts values Hv _ IH]; intros l E.
        -- destruct l; [constructor | discriminate].
        -- destruct l as [|t l]; [discriminate|]. injection E as -> ->.
           constructor; [exact Hv | apply IH; reflexivity].
      * apply (assign_all_length _ _ _ _ Hd).
      * intros Hnd Hfresh. apply (assign_all_fresh _ _ _ _ Hlen' Hnd Hfresh Hd).
Qed.

End LGAProperties.

Example eval_quoted_names_examples :
  eval_quoted_names "'Abbotsford', 'Richmond'" = Ok ["Abbotsford"; "Richmond"] /\
  eval_quoted_names "'Kew'," = Ok ["Kew"] /\
  eval_quoted_names "'Kew'" = Ok ["K"; "e"; "w"] /\
  eval_quoted_names "'St ' 'Kilda', 'Kew'" = Ok ["St Kilda"; "Kew"] /\
  eval_quoted_names "'Kew" = Raise SyntaxError.
Proof. repeat split. Qed.

Example read_pdf_pages :
  read_pdf eval_quoted_names [one_header_two_groups; two_regions] =
  Ok {| LGA_dict := [ ("YARRA", ["Abbotsford"; "Richmond"]);
                      ("MELBOURNE", ["Carlton"; "Docklands"]) ];
        printed := [read_error] |}.
Proof. reflexivity. Qed.

Lemma read_page_structural_check_witness :
  (read_page eval_quoted_names one_header_two_groups no_lga =
     Ok {| LGA_dict := []; printed := [read_error] |}) /\
  (returns (read_page eval_quoted_names two_regions no_lga) /\
   forall s',
     read_page eval_quoted_names two_regions no_lga = Ok s' ->
     Dict.keys (LGA_dict s') = ["YARRA"; "MELBOURNE"]).
Proof.
  destruct (read_page_structural_check eval_quoted_names one_header_two_groups
              no_lga) as [Hmis _].
  destruct (read_page_structural_check eval_quoted_names two_regions no_lga)
    as [_ Heq].
  split.
  - apply Hmis. discriminate.
  - destruct (Heq eq_refl) as [Hret Hpost]. split.
    + apply Hret. repeat constructor; eexists; reflexivity.
    + intros s' Hs'. destruct (Hpost s' Hs') as (_ & _ & _ & Hkeys).
      apply Hkeys.
      * repeat constructor; intros Hc;
          repeat (apply elem_of_cons in Hc as [Hc|Hc]; [discriminate|]);
          inversion Hc.
      * intros k _ Hc. inversion Hc.
Defined.

(** A page with as many names as groups, the same name twice, adds one entry
    for two names. *)
Lemma read_page_same_region_twice :
  ~ (forall (literal_eval : string -> result (list string))
            (p : page) (s s' : lga_state),
       length (LGA p) = length (suburbs p) ->
       read_page literal_eval p s = Ok s' ->
       length (LGA_dict s') = (length (LGA_dict s) + length (LGA p))%nat).
Proof.
  intros H.
  specialize (H eval_quoted_names yarra_twice no_lga
                {| LGA_dict := [("YARRA", ["Carlton"; "Fitzroy"])]; printed := [] |}
                eq_refl eq_refl).
  discriminate H.
Qed.

(** * Further properties *)

(** ** Schedule Router: the trip filters (In[18] to In[20]) *)

Lemma elem_of_map {A B : Type} (f : A -> B) (l : list A) (y : B) :
  y ∈ map f l <-> exists x, x ∈ l /\ f x = y.
Proof.
  split.
  - intros H. apply list_elem_of_In, in_map_iff in H as (x & Hx & Hin).
    exists x. split; [apply list_elem_of_In, Hin | exact Hx].
  - intros (x & Hin & Hx). apply list_elem_of_In, in_map_iff.
    exists x. split; [exact Hx | apply list_elem_of_In, Hin].
Qed.

Lemma service_list_spec (calendar : list calendar_row) (id : string) :
  id ∈ service_list calendar <->
  exists c, c ∈ calendar /\ cal_service_id c = id /\ weekday c = 5.
Proof.
  unfold service_list. split.
  - intros H. apply elem_of_map in H as (c & Hc & Hid).
    apply list_elem_of_filter in Hc as [Hw Hc].
    exists c. split; [exact Hc|]. split; [exact Hid|].
    apply Z.eqb_eq, Is_true_eq_true, Hw.
  - intros (c & Hc & Hid & Hw). apply elem_of_map. exists c. split; [|exact Hid].
    apply list_elem_of_filter. split; [|exact Hc].
    apply Is_true_eq_left, Z.eqb_eq, Hw.
Qed.

(** X1: when the weekday flags are 0 or 1, a service is kept exactly when some
    row of the calendar gives it all five weekdays. *)
Theorem service_list_all_weekdays (calendar : list calendar_row) (id : string) :
  Forall boolean_flags calendar ->
  (id ∈ service_list calendar <->
   exists c, c ∈ calendar /\ cal_service_id c = id /\
     monday c = 1 /\ tuesday c = 1 /\ wednesday c = 1 /\
     thursday c = 1 /\ friday c = 1).
Proof.
  intros Hbool. rewrite service_list_spec. split.
  - intros (c & Hc & Hid & Hw). exists c. split; [exact Hc|]. split; [exact Hid|].
    rewrite Forall_forall in Hbool.
    destruct (Hbool c Hc) as (H1 & H2 & H3 & H4 & H5).
    unfold weekday, flag in *. lia.
  - intros (c & Hc & Hid & H1 & H2 & H3 & H4 & H5). exists c.
    split; [exact Hc|]. split; [exact Hid|]. unfold weekday. lia.
Qed.

Lemma service_list_all_weekdays_witness :
  "T0" ∈ service_list weekday_calendar <->
  exists c, c ∈ weekday_calendar /\ cal_service_id c = "T0" /\
    monday c = 1 /\ tuesday c = 1 /\ wednesday c = 1 /\
    thursday c = 1 /\ friday c = 1.
Proof.
  apply (service_list_all_weekdays weekday_calendar "T0").
  repeat constructor; right; reflexivity.
Defined.

(** X2: a trip is a candidate exactly when the trips table puts it on a kept
    service and some stop-time row of it is at the destination. *)
Theorem mc_trips_spec (calendar : list calendar_row) (trips : list trip_row)
    (stop_times : list stop_time) (t : string) :
  t ∈ mc_trips calendar trips stop_times <->
  (exists tr, tr ∈ trips /\ trips_trip_id tr = t /\
              trips_service_id tr ∈ service_list calendar) /\
  (exists r, r ∈ stop_times /\ trip_id r = t /\ stop_id r = MC).
Proof.
  assert (Hset : forall x, x ∈ trip_set calendar trips <->
            exists tr, tr ∈ trips /\ trips_trip_id tr = x /\
                       trips_service_id tr ∈ service_list calendar).
  { intros x. unfold trip_set. rewrite elem_of_list_to_set. split.
    - intros H. apply elem_of_map in H as (tr & Htr & Hid).
      apply list_elem_of_filter in Htr as [Hs Htr].
      exists tr. split; [exact Htr|]. split; [exact Hid|].
      apply bool_decide_unpack in Hs. exact Hs.
    - intros (tr & Htr & Hid & Hs). apply elem_of_map. exists tr.
      split; [|exact Hid]. apply list_elem_of_filter. split; [|exact Htr].
      apply bool_decide_pack, Hs. }
  unfold mc_trips. rewrite elem_of_list_to_set. split.
  - intros H. apply elem_of_map in H as (r & Hr & Hid).
    apply list_elem_of_filter in Hr as [Hp Hr].
    apply andb_prop_elim in Hp as [Hin Hmc].
    apply bool_decide_unpack in Hin. apply Is_true_eq_true, String.eqb_eq in Hmc.
    split.
    + apply Hset. rewrite <- Hid. exact Hin.
    + exists r. auto.
  - intros [Htr (r & Hr & Hid & Hmc)]. apply elem_of_map. exists r.
    split; [|exact Hid]. apply list_elem_of_filter. split; [|exact Hr].
    apply andb_prop_intro. split.
    + apply bool_decide_pack, Hset. rewrite Hid. exact Htr.
    + apply Is_true_eq_left, String.eqb_eq, Hmc.
Qed.

(** ** Schedule Router: the hour-24 rewrite, further *)

Lemma digit_cases (d : Z) :
  0 <= d <= 9 ->
  d = 0 \/ d = 1 \/ d = 2 \/ d = 3 \/ d = 4 \/ d = 5 \/ d = 6 \/ d = 7 \/
  d = 8 \/ d = 9.
Proof. lia. Qed.

Lemma int_digit_pair (q r : Z) (rest : string) :
  0 <= q <= 9 -> 0 <= r <= 9 ->
  Py.int (Py.slice_to 2 (String (digit_char q) (String (digit_char r) rest))) =
  Ok (10 * q + r).
Proof.
  intros Hq Hr. apply digit_cases in Hq, Hr.
  assert (Hs : Py.slice_to 2 (String (digit_char q) (String (digit_char r) rest)) =
               String (digit_char q) (String (digit_char r) ""))
    by (destruct rest; reflexivity).
  rewrite Hs. clear Hs.
  repeat (destruct Hq as [->|Hq]); try subst q;
    repeat (destruct Hr as [->|Hr]); try subst r; reflexivity.
Qed.

Lemma div_mod_10 (v : Z) :
  0 <= v <= 99 -> 0 <= v / 10 <= 9 /\ 0 <= v mod 10 <= 9 /\
                  v = 10 * (v / 10) + v mod 10.
Proof.
  intros Hv. split; [|split].
  - split; [apply Z.div_pos; lia | apply Z.lt_succ_r, Z.div_lt_upper_bound; lia].
  - pose proof (Z.mod_pos_bound v 10). lia.
  - apply Z_div_mod_eq_full.
Qed.

(** The hour test reads the two leading digits of an ["HH:MM:SS"] time. *)
Lemma int_two_digits (v : Z) (rest : string) :
  0 <= v <= 99 -> Py.int (Py.slice_to 2 (two_digits v rest)) = Ok v.
Proof.
  intros Hv. destruct (div_mod_10 v Hv) as (Hq & Hr & Heq).
  unfold two_digits. rewrite int_digit_pair by assumption.
  rewrite <- Heq. reflexivity.
Qed.

Lemma of_option_raise {A : Type} (e e' : exn) (o : option A) :
  of_option e o = Raise e' -> e' = e.
Proof. destruct o; simpl; congruence. Qed.

Lemma fix_arrival_idempotent (r r' : stop_time) :
  fix_arrival r = Ok r' -> fix_arrival r' = Ok r'.
Proof.
  intros H. pose proof H as Hinv. apply fix_arrival_inv in Hinv as (h & Hh & Hr').
  destruct (h =? 24) eqn:E; [|congruence].
  subst r'. unfold fix_arrival. cbn [with_arrival arrival_time].
  rewrite slice_to_2_00. reflexivity.
Qed.

(** X3: In[22] run a second time changes nothing, and it keeps the number of
    rows. *)
Theorem fix_arrivals_idempotent (stop_times st_np : list stop_time) :
  fix_arrivals stop_times = Ok st_np ->
  fix_arrivals st_np = Ok st_np /\ length st_np = length stop_times.
Proof.
  intros H. apply fix_arrivals_inv in H.
  induction H as [|r r' l l' Hr _ [IH1 IH2]]; [split; reflexivity|].
  split.
  - cbn [fix_arrivals]. rewrite (fix_arrival_idempotent r r' Hr), IH1. reflexivity.
  - cbn [length]. rewrite IH2. reflexivity.
Qed.

Lemma fix_arrivals_idempotent_witness :
  fix_arrivals hour24_table_fixed = Ok hour24_table_fixed /\
  length hour24_table_fixed = length hour24_table.
Proof. apply (fix_arrivals_idempotent hour24_table). reflexivity. Defined.

(** X4: In[22] ends normally exactly when the two leading characters of every
    arrival time read as an integer; otherwise the run ends with
    [ValueError]. *)
Theorem fix_arrivals_returns_iff (stop_times : list stop_time) :
  (returns (fix_arrivals stop_times) <->
   Forall (fun r => returns (Py.int (Py.slice_to 2 (arrival_time r)))) stop_times) /\
  (forall e, fix_arrivals stop_times = Raise e -> e = ValueError).
Proof.
  induction stop_times as [|r rest [IH1 IH2]].
  - split; [|discriminate]. split; [constructor | intros _; eexists; reflexivity].
  - cbn [fix_arrivals]. unfold fix_arrival.
    destruct (Py.int (Py.slice_to 2 (arrival_time r))) as [h|e] eqn:Eh.
    + cbn [bind].
      assert (Hhead : exists r', (if h =? 24
                 then Ok (with_arrival r
                            ("00" ++ Py.slice_from 2 (arrival_time r))%string)
                 else Ok r) = Ok r')
        by (destruct (h =? 24); eexists; reflexivity).
      destruct Hhead as [r' ->]. cbn [bind].
      split.
      * split.
        -- intros [l Hl]. constructor; [exists h; exact Eh|].
           apply IH1. destruct (fix_arrivals rest); [eexists; reflexivity | discriminate].
        -- intros Hall. apply Forall_cons_1 in Hall as [_ Hall].
           apply IH1 in Hall as [l ->]. eexists. reflexivity.
      * intros e. destruct (fix_arrivals rest) as [l|e'] eqn:E; [discriminate|].
        cbn [bind]. intros [= <-]. apply IH2. reflexivity.
    + cbn [bind]. split.
      * split; [intros [l Hl]; discriminate|].
        intros Hall. apply Forall_cons_1 in Hall as [[h Hh] _]. congruence.
      * intros e' [= <-]. unfold Py.int in Eh.
        apply of_option_raise in Eh. exact Eh.
Qed.

Lemma digit_char_not_colon (d : Z) (rest : string) :
  0 <= d <= 9 ->
  match String (digit_char d) rest with
  | String ":" _ => False
  | _ => True
  end.
Proof.
  intros Hd. apply digit_cases in Hd.
  repeat (destruct Hd as [->|Hd]); try subst d; exact I.
Qed.

(** A time whose hour field is 24 or more is no time of day for
    [strptime]. *)
Lemma strptime_hour_out_of_range (h m s : Z) :
  24 <= h <= 99 -> Py.strptime_HMS (hms h m s) = Raise ValueError.
Proof.
  intros Hh. destruct (div_mod_10 h) as (Hq & Hr & Heq); [lia|].
  unfold Py.strptime_HMS, hms, two_digits at 1, Py.field.
  rewrite (digit_digit_char _ Hq), (digit_digit_char _ Hr), <- Heq.
  destruct (Z.leb_spec h 23) as [Hle|_]; [lia|].
  pose proof (digit_char_not_colon (h mod 10)
                (String ":" (two_digits m (String ":" (two_digits s "")))) Hr) as Hc.
  destruct (digit_char (h mod 10)) as [[] [] [] [] [] [] [] []];
    try reflexivity; contradiction.
Qed.

(** X5: an arrival with hour 25 to 99 passes In[22] unchanged, and the
    subtraction at the destination then raises [ValueError] whatever the
    departure is. *)
Theorem arrival_after_hour_24_raises (r : stop_time) (h m s : Z) (dep : string) :
  arrival_time r = hms h m s -> 25 <= h <= 99 ->
  fix_arrival r = Ok r /\
  elapsed_minutes (arrival_time r) dep = Raise ValueError.
Proof.
  intros Harr Hh. split.
  - unfold fix_arrival. rewrite Harr. unfold hms.
    rewrite int_two_digits by lia. cbn [bind].
    destruct (Z.eqb_spec h 24); [lia | reflexivity].
  - unfold elapsed_minutes. rewrite Harr, strptime_hour_out_of_range by lia.
    reflexivity.
Qed.

Lemma arrival_after_hour_24_raises_witness :
  fix_arrival (st_row "T1" "25:10:00" "25:10:00" MC 30) =
    Ok (st_row "T1" "25:10:00" "25:10:00" MC 30) /\
  elapsed_minutes (arrival_time (st_row "T1" "25:10:00" "25:10:00" MC 30))
    "08:50:00" = Raise ValueError.
Proof.
  apply (arrival_after_hour_24_raises
           (st_row "T1" "25:10:00" "25:10:00" MC 30) 25 10 0 "08:50:00").
  - reflexivity.
  - lia.
Defined.

(** ** Schedule Router: the scan, further *)

Lemma for_each_unchanged {A S : Type} (body : A -> S -> result S)
    (l : list A) (s : S) :
  (forall a, a ∈ l -> body a s = Ok s) -> for_each body l s = Ok s.
Proof.
  induction l as [|a l IH]; intros H; [reflexivity|].
  cbn [for_each]. rewrite H by left. cbn [bind]. apply IH.
  intros a' Ha'. apply H. right. exact Ha'.
Qed.

(** X6: a station at which no row of the table stops gets "not available",
    whatever else the table holds: the scan reads no timestamp and cannot
    raise. *)
Theorem station_without_rows (mc : gset string) (st_np : list stop_time)
    (station : string) :
  (forall r, r ∈ st_np -> stop_id r <> station) ->
  scan_station mc st_np station = Ok tally0 /\
  station_travel mc st_np station = Ok NotAvailable.
Proof.
  intros Hnone.
  assert (Hscan : scan_station mc st_np station = Ok tally0).
  { unfold scan_station. apply for_each_unchanged. intros i Hi.
    apply list_elem_of_In, in_seq in Hi.
    destruct (lookup_lt_is_Some_2 st_np i) as [r Hr]; [lia|].
    unfold visit. rewrite Hr. cbn [of_option bind].
    destruct (String.eqb_spec (stop_id r) station) as [Heq|_]; [|reflexivity].
    exfalso. apply (Hnone r); [eapply list_elem_of_lookup_2, Hr | exact Heq]. }
  split; [exact Hscan|]. unfold station_travel. rewrite Hscan. reflexivity.
Qed.

Lemma station_without_rows_witness :
  scan_station ∅ three_stop_trip "0" = Ok tally0 /\
  station_travel ∅ three_stop_trip "0" = Ok NotAvailable.
Proof.
  apply (station_without_rows ∅ three_stop_trip "0").
  intros r Hr.
  repeat (apply elem_of_cons in Hr as [->|Hr]; [discriminate|]).
  inversion Hr.
Defined.

(** X7: when the 31 rows after an origin event are all passed over (none
    below the origin in sequence, none at the destination), nothing is
    recorded for it, wherever the destination comes later in the trip. *)
Theorem destination_beyond_scan_range (st_np : list stop_time) (i : nat)
    (seq_begin : Z) (dep : string) (acc : tally) :
  (forall k, (1 <= k <= 31)%nat ->
     exists r, st_np !! (i + k)%nat = Some r /\ passed_over seq_begin r) ->
  follow st_np i seq_begin dep scan_range acc = Ok acc.
Proof.
  intros Hall. rewrite <- (app_nil_r scan_range).
  rewrite follow_skip; [reflexivity|].
  apply Forall_forall. intros k Hk. apply Hall.
  unfold scan_range in Hk. apply list_elem_of_In, in_seq in Hk. lia.
Qed.

Lemma destination_beyond_scan_range_witness :
  follow long_trip 0 1 "07:00:00" scan_range tally0 = Ok tally0.
Proof.
  apply (destination_beyond_scan_range long_trip 0 1 "07:00:00" tally0).
  intros k Hk.
  do 32 (destruct k as [|k];
         [first [lia | eexists; split; [reflexivity | split; reflexivity]]|]).
  lia.
Defined.

Example long_trip_not_found :
  length long_trip = 33%nat /\
  long_trip !! 32%nat = Some (st_row "T1" "08:00:00" "08:00:00" MC 33) /\
  station_travel {[ "T1" ]} long_trip "A" = Ok NotAvailable.
Proof. split; [reflexivity|]. split; [reflexivity|]. vm_compute. reflexivity. Qed.

Lemma time_of_day_strptime (t : string) :
  time_of_day t -> returns (Py.strptime_HMS t).
Proof.
  intros (h & m & s & Hh & Hm & Hs & ->). rewrite strptime_hms by assumption.
  eexists. reflexivity.
Qed.

Lemma time_of_day_hour (t : string) :
  time_of_day t -> returns (Py.int (Py.slice_to 2 t)).
Proof.
  intros (h & m & s & Hh & Hm & Hs & ->). unfold hms.
  rewrite int_two_digits by lia. eexists. reflexivity.
Qed.

Lemma follow_returns (st_np : list stop_time) (i : nat) (seq_begin : Z)
    (dep : string) :
  returns (Py.strptime_HMS dep) ->
  (forall j r, st_np !! j = Some r -> returns (Py.strptime_HMS (arrival_time r))) ->
  forall n a acc,
    ((i + a + n <= length st_np)%nat \/
     exists k r, (a <= k < a + n)%nat /\ st_np !! (i + k)%nat = Some r /\
                 stop_sequence r < seq_begin) ->
    returns (follow st_np i seq_begin dep (seq a n) acc).
Proof.
  intros [d Hd] Harr. induction n as [|n IH]; intros a acc Hclosed.
  - exists acc. reflexivity.
  - assert (Hlt : (i + a < length st_np)%nat).
    { destruct Hclosed as [?|(k & r & Hk & Hr & _)]; [lia|].
      apply lookup_lt_Some in Hr. lia. }
    destruct (lookup_lt_is_Some_2 st_np (i + a)%nat Hlt) as [r Hr].
    cbn [seq follow]. rewrite Hr. cbn [of_option bind].
    destruct (Z.ltb_spec (stop_sequence r) seq_begin) as [Hlow|Hhigh];
      [exists acc; reflexivity|].
    assert (Hrest : (i + S a + n <= length st_np)%nat \/
              exists k r', (S a <= k < S a + n)%nat /\
                           st_np !! (i + k)%nat = Some r' /\
                           stop_sequence r' < seq_begin).
    { destruct Hclosed as [?|(k & r' & Hk & Hr' & Hlow)]; [left; lia|].
      right. exists k, r'. split; [|auto].
      destruct (decide (k = a)) as [->|Hne]; [|lia].
      rewrite Hr in Hr'. injection Hr' as <-. lia. }
    destruct (String.eqb (stop_id r) MC); [|apply IH, Hrest].
    destruct (Harr _ _ Hr) as [t Ht].
    unfold elapsed_minutes. rewrite Ht, Hd. cbn [bind]. apply IH, Hrest.
Qed.

Lemma for_each_returns {A S : Type} (body : A -> S -> result S) (l : list A) :
  (forall a s, a ∈ l -> returns (body a s)) ->
  forall s, returns (for_each body l s).
Proof.
  induction l as [|a l IH]; intros H s; [exists s; reflexivity|].
  cbn [for_each]. destruct (H a s) as [s' ->]; [left|]. cbn [bind].
  apply IH. intros a' s'' Ha'. apply H. right. exact Ha'.
Qed.

(** X8: the scan for a station ends normally when every time of the table
    is a time of day and every origin event of the station has, within the
    31 rows after it, either the end of its trip or all 31 rows in the
    table. *)
Theorem scan_station_returns (mc : gset string) (st_np : list stop_time)
    (station : string) :
  Forall timed_row st_np ->
  (forall i r hour,
     st_np !! i = Some r -> stop_id r = station -> trip_id r ∈ mc ->
     Py.int (Py.slice_to 2 (departure_time r)) = Ok hour ->
     in_window hour = true ->
     closed_from st_np i (stop_sequence r)) ->
  returns (scan_station mc st_np station) /\
  returns (station_travel mc st_np station).
Proof.
  intros Htimed Hclosed.
  assert (Hrow : forall j r, st_np !! j = Some r -> timed_row r).
  { intros j r Hr. rewrite Forall_forall in Htimed.
    apply Htimed. eapply list_elem_of_lookup_2, Hr. }
  assert (Hscan : returns (scan_station mc st_np station)).
  { unfold scan_station. apply for_each_returns. intros i acc Hi.
    apply list_elem_of_In, in_seq in Hi.
    destruct (lookup_lt_is_Some_2 st_np i) as [r Hr]; [lia|].
    unfold visit. rewrite Hr. cbn [of_option bind].
    destruct (String.eqb_spec (stop_id r) station) as [Hst|_];
      [|exists acc; reflexivity].
    destruct (Hrow _ _ Hr) as [_ Hdep].
    destruct (time_of_day_hour _ Hdep) as [hour Hhour]. rewrite Hhour. cbn [bind].
    destruct (bool_decide_reflect (trip_id r ∈ mc)) as [Hmc|_];
      [|exists acc; reflexivity].
    destruct (in_window hour) eqn:Hw; [|exists acc; reflexivity].
    cbn [andb]. unfold scan_range. apply follow_returns.
    - apply time_of_day_strptime, Hdep.
    - intros j r' Hr'. apply time_of_day_strptime, (Hrow _ _ Hr').
    - destruct (Hclosed i r hour Hr Hst Hmc Hhour Hw) as [?|(k & r' & Hk & Hr' & Hlow)].
      + left. lia.
      + right. exists k, r'. split; [lia|]. auto. }
  split; [exact Hscan|]. destruct Hscan as [t Ht].
  unfold station_travel. rewrite Ht. eexists. reflexivity.
Qed.

Ltac time_of_day_is h m s :=
  exists h, m, s; repeat split; first [lia | reflexivity].

Lemma scan_station_returns_witness :
  returns (scan_station {[ "T1" ]} three_stop_trip_then_next "A") /\
  returns (station_travel {[ "T1" ]} three_stop_trip_then_next "A").
Proof.
  apply (scan_station_returns {[ "T1" ]} three_stop_trip_then_next "A").
  - repeat constructor.
    + time_of_day_is 7 1 0.
    + time_of_day_is 7 1 0.
    + time_of_day_is 7 15 0.
    + time_of_day_is 7 15 0.
    + time_of_day_is 7 30 0.
    + time_of_day_is 7 30 0.
    + time_of_day_is 7 42 0.
    + time_of_day_is 7 42 0.
    + time_of_day_is 9 30 0.
    + time_of_day_is 9 30 0.
  - intros i r hour Hr Hst _ _ _.
    destruct i as [|[|[|[|[|i]]]]]; try discriminate Hr;
      injection Hr as <-; try discriminate Hst.
    right. exists 3%nat, (st_row "T2" "09:30:00" "09:30:00" "Z" 1).
    split; [lia|]. split; reflexivity.
Defined.

(** ** Schedule Router: the value written for a property *)

Lemma py_round_range (q : Q) :
  (0 <= q)%Q -> (q < 1440)%Q -> 0 <= py_round q <= 1440.
Proof.
  intros H0 H1.
  assert (Hf0 : 0 <= Qfloor q).
  { change 0 with (Qfloor 0). apply Qfloor_resp_le, H0. }
  assert (Hf1 : Qfloor q < 1440).
  { rewrite Zlt_Qlt. eapply Qle_lt_trans; [apply Qfloor_le | exact H1]. }
  unfold py_round.
  destruct (Qcompare _ _); [destruct (Z.even _)| |]; lia.
Qed.

Lemma station_travel_range (mc : gset string) (st_np : list stop_time)
    (station : string) (v : travel_min) :
  station_travel mc st_np station = Ok v ->
  v = NotAvailable \/ exists m, v = Minutes m /\ 0 <= m <= 1440.
Proof.
  unfold station_travel. intros H. apply bind_ok in H as (t & Ht & H).
  injection H as <-. apply scan_station_bounded in Ht as (H0 & _ & H1).
  unfold average. destruct (number_trips t) as [|n] eqn:En; [left; reflexivity|].
  right. eexists. split; [reflexivity|].
  assert (Hpos : (0 < inject_Z (Z.of_nat (S n)))%Q)
    by (unfold Qlt; simpl; lia).
  apply py_round_range.
  - apply Qle_shift_div_l; [exact Hpos|]. rewrite Qmult_0_l. exact H0.
  - apply Qlt_shift_div_r; [exact Hpos|]. apply H1. discriminate.
Qed.

(** X9: in a run that completes, every property gets a travel time from the
    table: "not available" with flag 0, or a number of minutes between 0 and
    1440 with flag 1.  The defaults -1 of the two columns never remain, also
    for a property whose station was never resolved. *)
Theorem completed_run_flags (calendar : list calendar_row)
    (trips : list trip_row) (stop_times : list stop_time)
    (closest : list string) (station : string) :
  snd (schedule_router calendar trips stop_times closest) = None ->
  station ∈ closest ->
  let value :=
    fill_travel_min
      (trip_dict (fst (schedule_router calendar trips stop_times closest)))
      station MinusOne in
  (value = NotAvailable /\ direct_journey_flag value = 0) \/
  (exists m, value = Minutes m /\ 0 <= m <= 1440 /\
             direct_journey_flag value = 1).
Proof.
  intros He Hin value. subst value. revert He.
  unfold schedule_router.
  destruct (fix_arrivals stop_times) as [st_np|e]; [|discriminate].
  set (mc := mc_trips calendar trips stop_times).
  intros He.
  destruct (build_trip_dict_inv mc st_np closest initial_state)
    as (_ & _ & _ & H4 & H5).
  destruct (H5 He station Hin) as (v & Hv & Hcomputed).
  unfold fill_travel_min. rewrite Hv.
  assert (Hrange : v = NotAvailable \/ exists m, v = Minutes m /\ 0 <= m <= 1440).
  { destruct (decide (station = MC)) as [->|Hne].
    - right. exists 0. split; [|lia].
      assert (Hmc : trip_dict initial_state !! MC = Some (Minutes 0))
        by (unfold initial_state; cbn [trip_dict]; apply lookup_singleton_eq).
      apply H4 in Hmc. congruence.
    - destruct Hcomputed as [Hst _].
      + rewrite initial_state_keys. intros Hc. apply elem_of_singleton in Hc. auto.
      + eapply station_travel_range, Hst. }
  destruct Hrange as [->|(m & -> & Hm)]; [left; split; reflexivity|].
  right. exists m. split; [reflexivity|]. split; [exact Hm|].
  cbn [direct_journey_flag]. destruct (Z.eqb_spec m (-1)); [lia | reflexivity].
Qed.

Lemma completed_run_flags_witness :
  let value :=
    fill_travel_min
      (trip_dict (fst (schedule_router weekday_calendar two_short_trips_trips
                         two_short_trips ["A"; "0"])))
      "0" MinusOne in
  (value = NotAvailable /\ direct_journey_flag value = 0) \/
  (exists m, value = Minutes m /\ 0 <= m <= 1440 /\
             direct_journey_flag value = 1).
Proof.
  apply (completed_run_flags weekday_calendar two_short_trips_trips
           two_short_trips ["A"; "0"] "0").
  - vm_compute. reflexivity.
  - right. left.
Defined.

(** ** LGA dictionary and fill loop, further *)

Lemma assign_all_keys (literal_eval : string -> result (list string))
    (keys texts : list string) :
  forall d d',
    assign_all literal_eval keys texts d = Ok d' ->
    NoDup (Dict.keys d) ->
    NoDup (Dict.keys d') /\
    forall k, k ∈ Dict.keys d' -> k ∈ Dict.keys d \/ k ∈ keys.
Proof.
  revert texts. induction keys as [|key keys IH]; intros texts d d' H Hnd.
  - injection H as <-. auto.
  - destruct texts as [|text texts]; [injection H as <-; auto|].
    cbn [assign_all] in H. apply bind_ok in H as (value & _ & H).
    apply IH in H as [Hnd' Hsub]; [|apply dict_set_keys_NoDup, Hnd].
    split; [exact Hnd'|]. intros k Hk. apply Hsub in Hk as [Hk|Hk].
    + rewrite dict_set_keys in Hk. case_bool_decide; [left; exact Hk|].
      apply elem_of_app in Hk as [Hk|Hk]; [left; exact Hk|].
      apply list_elem_of_singleton in Hk. subst k. right. left.
    + right. right. exact Hk.
Qed.

Lemma read_pages_invariants (literal_eval : string -> result (list string))
    (pages : list page) :
  forall s0 s,
    for_each (read_page literal_eval) pages s0 = Ok s ->
    NoDup (Dict.keys (LGA_dict s0)) ->
    NoDup (Dict.keys (LGA_dict s)) /\
    printed s =
      (printed s0 ++ repeat read_error (length (List.filter mismatched pages)))%list /\
    forall k, k ∈ Dict.keys (LGA_dict s) ->
      k ∈ Dict.keys (LGA_dict s0) \/
      exists p, p ∈ pages /\ mismatched p = false /\ k ∈ LGA p.
Proof.
  induction pages as [|p pages IH]; intros s0 s H Hnd.
  - injection H as <-. cbn [List.filter length repeat]. rewrite app_nil_r. auto.
  - cbn [for_each] in H. apply bind_ok in H as (s1 & H1 & H).
    cbn [List.filter]. unfold mismatched at 1.
    destruct (Nat.eqb_spec (length (LGA p)) (length (suburbs p))) as [Hlen|Hlen].
    + rewrite read_page_equal in H1 by exact Hlen.
      apply bind_ok in H1 as (d & Hd & H1). injection H1 as <-.
      apply assign_all_keys in Hd as [Hnd1 Hsub]; [|exact Hnd].
      apply IH in H as (Hnd' & Hpr & Hkeys); [|exact Hnd1].
      cbn [negb printed LGA_dict] in *. split; [exact Hnd'|]. split; [exact Hpr|].
      intros k Hk. apply Hkeys in Hk as [Hk|(p' & Hp' & Hm & Hk)].
      * apply Hsub in Hk as [Hk|Hk]; [left; exact Hk|].
        right. exists p. split; [left|]. split; [|exact Hk].
        unfold mismatched. rewrite Hlen, Nat.eqb_refl. reflexivity.
      * right. exists p'. split; [right; exact Hp'|]. auto.
    + rewrite read_page_mismatch in H1 by exact Hlen. injection H1 as <-.
      apply IH in H as (Hnd' & Hpr & Hkeys); [|exact Hnd].
      cbn [negb printed LGA_dict length repeat] in *.
      split; [exact Hnd'|]. split.
      * rewrite Hpr, <- app_assoc. reflexivity.
      * intros k Hk. apply Hkeys in Hk as [Hk|(p' & Hp' & Hm & Hk)];
          [left; exact Hk|].
        right. exists p'. split; [right; exact Hp'|]. auto.
Qed.

(** X13: when the reading of the PDF completes, the dictionary has no
    repeated key, every key was captured on a page that passed the count
    check, and exactly one error line was printed per page that failed it. *)
Theorem read_pdf_invariants (literal_eval : string -> result (list string))
    (pages : list page) (s : lga_state) :
  read_pdf literal_eval pages = Ok s ->
  NoDup (Dict.keys (LGA_dict s)) /\
  printed s = repeat read_error (length (List.filter mismatched pages)) /\
  forall k, k ∈ Dict.keys (LGA_dict s) ->
    exists p, p ∈ pages /\ length (LGA p) = length (suburbs p) /\ k ∈ LGA p.
Proof.
  unfold read_pdf. intros H.
  apply read_pages_invariants in H as (Hnd & Hpr & Hkeys); [|constructor].
  split; [exact Hnd|]. split; [exact Hpr|].
  intros k Hk. apply Hkeys in Hk as [Hk|(p & Hp & Hm & Hk)]; [inversion Hk|].
  exists p. split; [exact Hp|]. split; [|exact Hk].
  unfold mismatched in Hm. apply negb_false_iff, Nat.eqb_eq in Hm. exact Hm.
Qed.

Lemma read_pdf_invariants_witness :
  NoDup (Dict.keys [ ("YARRA", ["Abbotsford"; "Richmond"]);
                     ("MELBOURNE", ["Carlton"; "Docklands"]) ]) /\
  [read_error] =
    repeat read_error
      (length (List.filter mismatched [one_header_two_groups; two_regions])) /\
  forall k, k ∈ Dict.keys [ ("YARRA", ["Abbotsford"; "Richmond"]);
                            ("MELBOURNE", ["Carlton"; "Docklands"]) ] ->
    exists p, p ∈ [one_header_two_groups; two_regions] /\
              length (LGA p) = length (suburbs p) /\ k ∈ LGA p.
Proof.
  apply (read_pdf_invariants eval_quoted_names
           [one_header_two_groups; two_regions]
           {| LGA_dict := [ ("YARRA", ["Abbotsford"; "Richmond"]);
                            ("MELBOURNE", ["Carlton"; "Docklands"]) ];
              printed := [read_error] |}).
  reflexivity.
Defined.

Lemma lower_truthy (s1 s2 : string) :
  Py.lower s1 = Py.lower s2 -> Py.truthy s1 = Py.truthy s2.
Proof. destruct s1, s2; simpl; congruence. Qed.

Lemma lga_pairs_keys (d : list (string * list string)) (kv : string * string) :
  kv ∈ lga_pairs d -> fst kv ∈ Dict.keys d.
Proof.
  unfold lga_pairs, Dict.keys. intros H.
  apply list_elem_of_In, in_flat_map in H as ([k vs] & Hin & H).
  apply in_map_iff in H as (v & <- & _). cbn [fst].
  apply elem_of_map. exists (k, vs). split; [apply list_elem_of_In, Hin | reflexivity].
Qed.

(** X14: the region written by the fill loop is the sentinel or a key of the
    dictionary; an empty suburb gets the sentinel; and two suburbs that
    differ only in letter case get the same region. *)
Theorem fill_lga_result (d : list (string * list string)) (suburb : string) :
  (fill_lga d suburb = not_available \/ fill_lga d suburb ∈ Dict.keys d) /\
  (suburb = "" -> fill_lga d suburb = not_available) /\
  (forall suburb', Py.lower suburb = Py.lower suburb' ->
     fill_lga d suburb = fill_lga d suburb').
Proof.
  unfold fill_lga. split; [|split].
  - rewrite fill_from_items_last.
    destruct (last (matching_pairs suburb d)) as [kv|] eqn:E; [|left; reflexivity].
    right. apply lga_pairs_keys. apply last_Some_elem_of in E.
    unfold matching_pairs in E. apply list_elem_of_In, List.filter_In in E as [E _].
    apply list_elem_of_In, E.
  - intros ->. rewrite fill_from_items_last.
    replace (matching_pairs "" d) with (@nil (string * string)); [reflexivity|].
    unfold matching_pairs. induction (lga_pairs d) as [|kv l IH]; [reflexivity|].
    cbn [List.filter]. exact IH.
  - intros suburb' Hlow. rewrite !fill_from_items_last.
    replace (matching_pairs suburb' d) with (matching_pairs suburb d); [reflexivity|].
    unfold matching_pairs. apply List.filter_ext. intros kv.
    unfold suburb_matches. rewrite Hlow, (lower_truthy _ _ Hlow). reflexivity.
Qed.

Lemma fill_lga_result_witness :
  fill_lga carlton_twice "" = not_available /\
  fill_lga carlton_twice "carlton" = fill_lga carlton_twice "CARLTON".
Proof.
  destruct (fill_lga_result carlton_twice "") as (_ & Hempty & _).
  destruct (fill_lga_result carlton_twice "carlton") as (_ & _ & Hcase).
  split; [apply Hempty; reflexivity | apply Hcase; reflexivity].
Defined.

(** ** Geocoder, further *)

Lemma dict_set_elem {V : Type} (k k' : string) (v v' : V) (d : list (string * V)) :
  NoDup (Dict.keys d) ->
  ((k', v') ∈ Dict.set k v d <->
   (k' = k /\ v' = v) \/ (k' <> k /\ (k', v') ∈ d)).
Proof.
  unfold Dict.keys. induction d as [|[k0 v0] d IH]; intros Hnd.
  - cbn [Dict.set]. rewrite list_elem_of_singleton. split.
    + intros [= -> ->]. left. auto.
    + intros [[-> ->]|[_ Hc]]; [reflexivity | inversion Hc].
  - cbn [map fst] in Hnd. apply NoDup_cons in Hnd as [Hk0 Hnd].
    cbn [Dict.set]. destruct (String.eqb_spec k0 k) as [->|Hne].
    + rewrite !elem_of_cons. split.
      * intros [[= -> ->]|Hin]; [left; auto|].
        right. split; [|right; exact Hin].
        intros ->. apply Hk0. apply elem_of_map. exists (k, v'). auto.
      * intros [[-> ->]|[Hne [[= -> _]|Hin]]]; [left; reflexivity | contradiction |].
        right. exact Hin.
    + rewrite !elem_of_cons, (IH Hnd). split.
      * intros [[= -> ->]|[[-> ->]|[Hne' Hin]]]; [right | left | right]; auto.
      * intros [[-> ->]|[Hne' [[= -> ->]|Hin]]]; [right; left | left | right; right]; auto.
Qed.

Section GeocoderFurther.

Variables (polygon point coord : Type).
Variable Point : coord -> coord -> point.
Variable contains : polygon -> point -> bool.

Lemma build_suburb_polygons_snoc (records : list (string * polygon))
    (rec : string * polygon) :
  build_suburb_polygons polygon (records ++ [rec]) =
  Dict.set (fst rec) (snd rec) (build_suburb_polygons polygon records).
Proof. unfold build_suburb_polygons. rewrite fold_left_app. reflexivity. Qed.

(** X15: the dictionary of In[10] holds, for every name of the shapefile, the
    polygon of the last record with that name and nothing else: an earlier
    polygon of the same name is not looked at by [in_suburb]. *)
Theorem build_suburb_polygons_last (records : list (string * polygon))
    (name : string) (poly : polygon) :
  (name, poly) ∈ build_suburb_polygons polygon records <->
  exists before after,
    records = (before ++ (name, poly) :: after)%list /\
    name ∉ map fst after.
Proof.
  revert name poly. induction records as [|[n0 p0] records IH] using rev_ind;
    intros name poly.
  - split; [intros H; inversion H|].
    intros (before & after & H & _). destruct before; discriminate.
  - rewrite build_suburb_polygons_snoc. cbn [fst snd].
    rewrite dict_set_elem by apply build_suburb_polygons_keys.
    rewrite IH. split.
    + intros [[-> ->]|[Hne (before & after & -> & Hout)]].
      * exists records, []. split; [reflexivity|]. intros H; inversion H.
      * exists before, (after ++ [(n0, p0)])%list.
        split; [rewrite <- app_assoc; reflexivity|].
        rewrite map_app. intros H. apply elem_of_app in H as [H|H]; [auto|].
        apply list_elem_of_singleton in H. auto.
    + intros (before & after & Heq & Hout).
      destruct after as [|last after _] using rev_ind.
      * apply app_inj_tail in Heq as [_ [= -> ->]]. left. auto.
      * rewrite app_comm_cons, app_assoc in Heq.
        apply app_inj_tail in Heq as [-> <-].
        rewrite map_app in Hout. right. split.
        -- intros ->. apply Hout. apply elem_of_app. right. left.
        -- exists before, after. split; [reflexivity|].
           intros H. apply Hout. apply elem_of_app. left. exact H.
Qed.

(** X16: [in_suburb] returns the name of the first polygon of the dictionary,
    in its order, that contains the point, every polygon before it not
    containing the point; when no polygon contains the point it returns the
    sentinel.  (A polygon may itself be named like the sentinel, so the
    sentinel alone does not tell that no polygon contains the point.) *)
Theorem in_suburb_first_match (suburb_polygons : list (string * polygon))
    (lat lon : coord) :
  (exists i name poly,
     suburb_polygons !! i = Some (name, poly) /\
     contains poly (Point lon lat) = true /\
     (forall j name' poly', (j < i)%nat ->
        suburb_polygons !! j = Some (name', poly') ->
        contains poly' (Point lon lat) = false) /\
     in_suburb polygon point coord Point contains suburb_polygons lat lon = name) \/
  ((forall j name' poly',
      suburb_polygons !! j = Some (name', poly') ->
      contains poly' (Point lon lat) = false) /\
   in_suburb polygon point coord Point contains suburb_polygons lat lon =
   not_available).
Proof.
  unfold in_suburb. generalize (Point lon lat). intros p.
  induction suburb_polygons as [|[name poly] items IH].
  - right. split; [intros j n q H; inversion H | reflexivity].
  - cbn [first_containing]. destruct (contains poly p) eqn:Hc.
    + left. exists 0%nat, name, poly. repeat split; try assumption.
      intros j n q Hj. lia.
    + destruct IH as [(i & n & q & Hi & Hq & Hfirst & Hres)|[Hnone Hres]].
      * left. exists (S i), n, q. repeat split; try assumption.
        intros [|j] n' q' Hlt Hj.
        -- injection Hj as <- <-. exact Hc.
        -- apply (Hfirst j n' q'); [lia | exact Hj].
      * right. split; [|exact Hres].
        intros [|j] n' q' Hj.
        -- injection Hj as <- <-. exact Hc.
        -- apply (Hnone j n' q' Hj).
Qed.

End GeocoderFurther.

Lemma build_suburb_polygons_last_witness :
  ("CARLTON", ((0, 0), (10, 10))) ∈
  build_suburb_polygons box
    [ ("CARLTON", ((50, 50), (60, 60))); ("CARLTON", ((0, 0), (10, 10))) ].
Proof.
  apply (build_suburb_polygons_last box).
  exists [ ("CARLTON", ((50, 50), (60, 60))) ], [].
  split; [reflexivity|]. intros H. inversion H.
Defined.

(** A point inside the earlier of two polygons of one name only is not
    placed. *)
Example shadowed_polygon :
  in_suburb box (Z * Z)%type Z box_point box_contains
    (build_suburb_polygons box
       [ ("CARLTON", ((50, 50), (60, 60))); ("CARLTON", ((0, 0), (10, 10))) ])
    55 55 = not_available.
Proof. reflexivity. Qed.

(** ** Nearest station, further *)

Section NearestStationFurther.

Variable radians : Q -> Q.
Variable haversine_distances : Q * Q -> Q * Q -> Q * Q.
Variables (lat lon : Q).

Local Abbreviation d := (result_dist radians haversine_distances lat lon).

Lemma fold_consider_same (stops : list stop) :
  forall s s',
    min_dist s = min_dist s' -> dist_changed s = dist_changed s' ->
    (dist_changed s = true -> closest_id s = closest_id s') ->
    let t := fold_left (consider radians haversine_distances lat lon) stops s in
    let t' := fold_left (consider radians haversine_distances lat lon) stops s' in
    min_dist t = min_dist t' /\ dist_changed t = dist_changed t' /\
    (dist_changed t = true -> closest_id t = closest_id t').
Proof.
  induction stops as [|st stops IH]; intros s s' Hm Hc Hid; [cbn; auto|].
  cbn [fold_left]. apply IH; unfold consider; rewrite <- Hm;
    destruct (Qlt_le_dec (d st) (min_dist s)); auto.
Qed.

(** X17: what the previous property left in [closest_id] never shows in the
    cells written for the next one. *)
Theorem nearest_station_ignores_previous
    (closest_before closest_before' : string) (stops : list stop) :
  nearest_station radians haversine_distances closest_before lat lon stops =
  nearest_station radians haversine_distances closest_before' lat lon stops.
Proof.
  unfold nearest_station, scan_stops.
  destruct (fold_consider_same stops
              {| min_dist := 1; dist_changed := false; closest_id := closest_before |}
              {| min_dist := 1; dist_changed := false; closest_id := closest_before' |})
    as (Hm & Hc & Hid); [reflexivity | reflexivity | discriminate |].
  rewrite <- Hc, <- Hm.
  destruct (dist_changed _) eqn:E; [|reflexivity].
  rewrite (Hid eq_refl). reflexivity.
Qed.

(** X18: the station written for a property is a station of the table, and
    the distance written is its angular distance times 6378, below 6378
    times 1. *)
Theorem nearest_station_in_table (closest_before : string) (stops : list stop)
    (id : string) (km : Q) :
  nearest_station radians haversine_distances closest_before lat lon stops =
    Some (id, km) ->
  exists st, st ∈ stops /\ id = stops_stop_id st /\
             km = (d st * 6378)%Q /\ (d st < 1)%Q.
Proof.
  unfold nearest_station. intros H.
  destruct (scan_stops_inv radians haversine_distances lat lon closest_before stops)
    as [(Hc & _)|(_ & j & st & Hj & Hmin & Hid & H1 & _)].
  - rewrite Hc in H. discriminate.
  - destruct (dist_changed _); [|discriminate]. injection H as <- <-.
    exists st. split; [eapply list_elem_of_lookup_2, Hj|].
    rewrite Hid, Hmin. auto.
Qed.

End NearestStationFurther.

Lemma nearest_station_in_table_witness :
  exists st, st ∈ equator_stops /\ "19842" = stops_stop_id st /\
    (result_dist radians_approx haversine_on_equator 0 0
       {| stops_stop_id := "19842"; stop_lat := 0; stop_lon := 5 |} * 6378)%Q =
    (result_dist radians_approx haversine_on_equator 0 0 st * 6378)%Q /\
    (result_dist radians_approx haversine_on_equator 0 0 st < 1)%Q.
Proof.
  apply (nearest_station_in_table radians_approx haversine_on_equator 0 0 ""
           equator_stops).
  vm_compute. reflexivity.
Defined.

(** ** Case figures: the key of an LGA (In[32]) *)

(** X20: the guard of In[32] never holds a name back: once spaces are
    hyphens the key cannot be "not available", so the figures of the
    sentinel are asked for too, under "not-available". *)
Theorem lga_key_never_sentinel (name : string) :
  lga_key name <> not_available /\ is_fetched name = true /\
  lga_key not_available = "not-available".
Proof.
  assert (Hne : lga_key name <> not_available).
  { unfold lga_key, not_available. intros H.
    destruct (Py.lower name) as [|a [|b [|c [|e rest]]]]; try discriminate.
    cbn [replace_space] in H. injection H as _ _ _ He _.
    destruct (Ascii.eqb_spec e " "%char); [discriminate | congruence]. }
  split; [exact Hne|]. split; [|reflexivity].
  unfold is_fetched. apply negb_true_iff, String.eqb_neq. exact Hne.
Qed.

(** ** Witnesses for the scan lemmas *)

Lemma follow_one_trip_witness :
  follow three_stop_trip_then_next 1 2 "07:15:00"
    ([1%nat] ++ 2%nat :: [] ++ 3%nat :: seq 4 28)%list tally0 =
  Ok (record_trip tally0 (1620 # 60)%Q).
Proof.
  apply (follow_one_trip three_stop_trip_then_next 1 2 "07:15:00"
           [1%nat] 2%nat [] 3%nat (seq 4 28) tally0
           (st_row "T1" "07:42:00" "07:42:00" MC 4)
           (st_row "T2" "09:30:00" "09:30:00" "Z" 1)).
  - repeat constructor. eexists. split; [reflexivity|]. split; reflexivity.
  - reflexivity.
  - reflexivity.
  - reflexivity.
  - reflexivity.
  - constructor.
  - reflexivity.
  - reflexivity.
Defined.

Lemma visit_last_row_raises_witness :
  visit {[ "T1" ]} [ st_row "T1" "07:15:00" "07:15:00" "A" 1 ] "A"
    (length [ st_row "T1" "07:15:00" "07:15:00" "A" 1 ] - 1) tally0 =
  Raise IndexError.
Proof.
  apply (visit_last_row_raises {[ "T1" ]}
           [ st_row "T1" "07:15:00" "07:15:00" "A" 1 ] "A"
           (st_row "T1" "07:15:00" "07:15:00" "A" 1) 7 tally0).
  - reflexivity.
  - reflexivity.
  - reflexivity.
  - apply elem_of_singleton. reflexivity.
  - reflexivity.
Defined.

Lemma elapsed_minutes_total_witness :
  elapsed_minutes (hms 0 5 0) (hms 8 50 0) =
  Ok (((0 * 3600 + 5 * 60 + 0) - (8 * 3600 + 50 * 60 + 0)) mod 86400 # 60)%Q.
Proof. apply (elapsed_minutes_total 0 5 0 8 50 0); lia. Defined.
